(** * Portal Seguro: session lifecycle and route guards

    A shallow embedding of [src/composables/useSession.js] (the session
    manager and its router hook) and of [src/middleware/auth.js] (the
    navigation middleware and the route-protection helper).

    The JavaScript closes over six Vue refs and talks to two collaborators,
    [secureDB] (utils/indexeddb) and the JWT codec (utils/jwt).  The refs
    become the record [Session]; the browser and the store become the record
    [World]; an asynchronous function becomes a computation in a small
    state-and-exception monad over both.  A rejected promise or a thrown
    error is the result [Throw], and the state reached when it is thrown is
    kept, as it is in JavaScript.  Each call runs to completion: the
    interleaving of two pending asynchronous calls is not part of the model. *)

From Stdlib Require Import ZArith List String Bool Lia.
From Stdlib Require Import Ascii.
From Stdlib.Strings Require Byte.
From Stdlib Require DecimalString HexadecimalString.
Import ListNotations.
Open Scope string_scope.
Open Scope Z_scope.

(** ** Values and records of the program *)

(** The values that the code puts into event metadata. *)
Inductive JsVal : Type :=
| VStr (s : string)
| VNum (n : Z)
| VBool (b : bool).

(** The first argument of [secureDB.logEvent]. *)
Inductive EventKind : Type :=
| SESSION_START
| SESSION_END
| UNAUTHORIZED_ACCESS
| ROUTE_ACCESS.

Definition EventKind_eqb (a b : EventKind) : bool :=
  match a, b with
  | SESSION_START, SESSION_START => true
  | SESSION_END, SESSION_END => true
  | UNAUTHORIZED_ACCESS, UNAUTHORIZED_ACCESS => true
  | ROUTE_ACCESS, ROUTE_ACCESS => true
  | _, _ => false
  end.

Record Event : Type := mkEvent {
  kind : EventKind;
  actor : string;
  metadata : list (string * JsVal);
  timestamp : Z
}.

(** [userData]: the object handed to [startSession].  [id] may be missing. *)
Record User : Type := mkUser {
  id : option string;
  username : string;
  displayName : string
}.

(** The payload that [startSession] passes to [generateJWT]. *)
Record Claims : Type := mkClaims {
  userId : string;
  claimUsername : string;
  credentialId : string;
  issuedAt : Z
}.

(** The refs of [useSession]; times are epoch milliseconds, so that
    [new Date().toISOString()] read back by [new Date(...)] is the identity.
    [inactivityTimer] holds the id returned by [setTimeout]; ids are positive,
    hence truthy. *)
Record Session : Type := mkSession {
  isAuthenticated : bool;
  sessionUser : option User;
  sessionStart : option Z;
  sessionTimeout : Z;
  inactivityTimer : option positive;
  sessionToken : option string
}.

(** The state of a fresh [useSession()]. *)
Definition emptySession : Session :=
  mkSession false None None 900 None None.

(** What lies outside the composable: the clock, [navigator.userAgent], the
    pending timeouts of the page (id and deadline), and the content of
    [secureDB].  [faultAt k] says whether the [k]-th call to a collaborator
    fails; [calls] counts the calls made so far. *)
Record World : Type := mkWorld {
  now : Z;
  userAgent : string;
  tokenStore : option (string * Z);
  eventLog : list Event;
  timers : list (positive * Z);
  nextTimer : positive;
  faultAt : nat -> bool;
  calls : nat
}.

Record Machine : Type := mkMachine {
  session : Session;
  world : World
}.

(** Thrown values: a failure of the store, a failure of the codec, and
    [new Error('Acesso nao autorizado')] of [checkRouteAccess]. *)
Inductive Err : Type :=
| StoreError
| CodecError
| AccessDenied.

Inductive Res (A : Type) : Type :=
| Ok (a : A)
| Throw (e : Err).
Arguments Ok {A} a.
Arguments Throw {A} e.

(** ** The monad of asynchronous functions *)

Definition M (A : Type) : Type := Machine -> Res A * Machine.

Definition ret {A} (a : A) : M A := fun m => (Ok a, m).

Definition bind {A B} (c : M A) (k : A -> M B) : M B :=
  fun m =>
    match c m with
    | (Ok a, m') => k a m'
    | (Throw e, m') => (Throw e, m')
    end.

Definition throw {A} (e : Err) : M A := fun m => (Throw e, m).

(** [try { c } catch (error) { h error }] *)
Definition try_catch {A} (c : M A) (h : Err -> M A) : M A :=
  fun m =>
    match c m with
    | (Ok a, m') => (Ok a, m')
    | (Throw e, m') => h e m'
    end.

Definition gets {A} (f : Session -> A) : M A := fun m => (Ok (f (session m)), m).
Definition asks {A} (f : World -> A) : M A := fun m => (Ok (f (world m)), m).
Definition modify_session (f : Session -> Session) : M unit :=
  fun m => (Ok tt, mkMachine (f (session m)) (world m)).
Definition modify_world (f : World -> World) : M unit :=
  fun m => (Ok tt, mkMachine (session m) (f (world m))).

Declare Scope js_scope.
Delimit Scope js_scope with js.
Notation "x <- c ;; k" := (bind c (fun x => k))
  (at level 61, c at next level, right associativity) : js_scope.
Notation "c ;; k" := (bind c (fun _ => k))
  (at level 61, right associativity) : js_scope.
Open Scope js_scope.

(** Assignments to the refs. *)
Definition set_isAuthenticated (b : bool) (s : Session) : Session :=
  mkSession b (sessionUser s) (sessionStart s) (sessionTimeout s)
            (inactivityTimer s) (sessionToken s).
Definition set_sessionUser (u : option User) (s : Session) : Session :=
  mkSession (isAuthenticated s) u (sessionStart s) (sessionTimeout s)
            (inactivityTimer s) (sessionToken s).
Definition set_sessionStart (t : option Z) (s : Session) : Session :=
  mkSession (isAuthenticated s) (sessionUser s) t (sessionTimeout s)
            (inactivityTimer s) (sessionToken s).
Definition set_sessionTimeout (n : Z) (s : Session) : Session :=
  mkSession (isAuthenticated s) (sessionUser s) (sessionStart s) n
            (inactivityTimer s) (sessionToken s).
Definition set_inactivityTimer (t : option positive) (s : Session) : Session :=
  mkSession (isAuthenticated s) (sessionUser s) (sessionStart s)
            (sessionTimeout s) t (sessionToken s).
Definition set_sessionToken (t : option string) (s : Session) : Session :=
  mkSession (isAuthenticated s) (sessionUser s) (sessionStart s)
            (sessionTimeout s) (inactivityTimer s) t.

(** Updates of the world. *)
Definition set_tokenStore (t : option (string * Z)) (w : World) : World :=
  mkWorld (now w) (userAgent w) t (eventLog w) (timers w) (nextTimer w)
          (faultAt w) (calls w).
Definition set_eventLog (l : list Event) (w : World) : World :=
  mkWorld (now w) (userAgent w) (tokenStore w) l (timers w) (nextTimer w)
          (faultAt w) (calls w).
Definition set_timers (l : list (positive * Z)) (n : positive) (w : World) : World :=
  mkWorld (now w) (userAgent w) (tokenStore w) (eventLog w) l n
          (faultAt w) (calls w).
Definition count_call (w : World) : World :=
  mkWorld (now w) (userAgent w) (tokenStore w) (eventLog w) (timers w)
          (nextTimer w) (faultAt w) (S (calls w)).

(** A call to a collaborator: the call is counted; if the oracle marks it
    as failing it throws [e] and has no other effect.  The contract of the
    spec asks the store not to throw; the source does not rely on that
    ([checkAuthentication] and [logRouteAccess] wrap their store calls in
    try/catch), so the model lets any call fail and each theorem says which
    calls it needs to succeed.  An oracle that is false everywhere is the
    store of the contract. *)
Definition external {A} (e : Err) (op : M A) : M A :=
  fun m =>
    let m' := mkMachine (session m) (count_call (world m)) in
    if faultAt (world m) (calls (world m)) then (Throw e, m') else op m'.

(** JavaScript truthiness of a string, and [a || b] on strings. *)
Definition truthy (s : string) : bool :=
  match s with
  | EmptyString => false
  | String _ _ => true
  end.

Definition or_else (a : option string) (b : string) : string :=
  match a with
  | Some s => if truthy s then s else b
  | None => b
  end.

(** ** The page: timeouts *)

(** [setTimeout(cb, delay)]: a fresh id, pending until [now + delay].  That
    is the page's timer for a delay that fits a signed 32-bit integer; a
    larger one the page runs at once.  Statements of when a deadline falls
    bound the delay. *)
Definition setTimeout (delay : Z) : M positive :=
  i <- asks nextTimer ;;
  t <- asks now ;;
  l <- asks timers ;;
  modify_world (set_timers ((i, t + delay) :: l) (Pos.succ i)) ;;
  ret i.

(** [clearTimeout(id)] *)
Definition clearTimeout (i : positive) : M unit :=
  l <- asks timers ;;
  n <- asks nextTimer ;;
  modify_world (set_timers (filter (fun p => negb (Pos.eqb (fst p) i)) l) n).

(** ** The store *)

Definition expired (t : Z) (entry : string * Z) : bool := snd entry <? t.

(** Modelled from the spec: [secureDB.getValidToken] of utils/indexeddb,
    which is not among the sources.  It returns a token only if one is
    present and not expired, and otherwise purges it. *)
Definition getValidToken : M (option string) :=
  external StoreError (
    t <- asks now ;;
    e <- asks tokenStore ;;
    match e with
    | Some entry =>
        if expired t entry
        then modify_world (set_tokenStore None) ;; ret None
        else ret (Some (fst entry))
    | None => ret None
    end).

(** Modelled from the spec: [secureDB.storeToken(token, ttlSeconds)] of
    utils/indexeddb: the token is kept for [ttlSeconds] from now. *)
Definition storeToken (token : string) (ttl : Z) : M unit :=
  external StoreError (
    t <- asks now ;;
    modify_world (set_tokenStore (Some (token, t + ttl * 1000)))).

(** Modelled from the spec: [secureDB.clearExpiredTokens] of utils/indexeddb:
    it removes the stored token if it has expired, and only then. *)
Definition clearExpiredTokens : M unit :=
  external StoreError (
    t <- asks now ;;
    e <- asks tokenStore ;;
    match e with
    | Some entry =>
        if expired t entry then modify_world (set_tokenStore None) else ret tt
    | None => ret tt
    end).

(** Modelled from the spec: [secureDB.logEvent(kind, actor, metadata)] of
    utils/indexeddb: one entry, stamped with the time, is appended to the
    log.  By the contract of the spec a failure of the write is swallowed
    by the store; a write that the oracle marks as failing is a store
    outside that contract. *)
Definition logEvent (k : EventKind) (who : string)
    (md : list (string * JsVal)) : M unit :=
  external StoreError (
    t <- asks now ;;
    l <- asks eventLog ;;
    modify_world (set_eventLog (l ++ [mkEvent k who md t]))).

(** The number of entries of kind [k] in a log. *)
Definition count_kind (k : EventKind) (l : list Event) : nat :=
  List.length (filter (fun e => EventKind_eqb (kind e) k) l).

(** ** utils/jwt and useSession.js *)

Section SessionManager.

(** The codec of utils/jwt is taken as given: the token issued for a
    payload, and whether a token is accepted at a given time. *)
Variable generateJWT : Claims -> string.
Variable validateJWT : Z -> string -> bool.

(** [startInactivityTimer]: at most one deadline is pending. *)
Definition startInactivityTimer : M unit :=
  t <- gets inactivityTimer ;;
  match t with
  | Some i => clearTimeout i
  | None => ret tt
  end ;;
  n <- gets sessionTimeout ;;
  i <- setTimeout (n * 1000) ;;
  modify_session (set_inactivityTimer (Some i)).

(** [initSession] *)
Definition initSession : M bool :=
  token <- getValidToken ;;
  t0 <- asks now ;;
  match token with
  | Some t =>
      if truthy t && validateJWT t0 t then
        modify_session (set_sessionToken (Some t)) ;;
        modify_session (set_isAuthenticated true) ;;
        modify_session (set_sessionStart (Some t0)) ;;
        logEvent SESSION_START "system"
                 [("token", VStr (substring 0 10 t ++ "..."))] ;;
        startInactivityTimer ;;
        ret true
      else ret false
  | None => ret false
  end.

(** [startSession(userData, credentialId)] *)
Definition startSession (userData : User) (cred : string) : M string :=
  t0 <- asks now ;;
  token <- external CodecError
             (ret (generateJWT
                     (mkClaims (or_else (id userData) "anonymous")
                               (username userData) cred t0))) ;;
  n <- gets sessionTimeout ;;
  storeToken token n ;;
  modify_session (set_sessionToken (Some token)) ;;
  modify_session (set_isAuthenticated true) ;;
  modify_session (set_sessionUser (Some userData)) ;;
  modify_session (set_sessionStart (Some t0)) ;;
  ua <- asks userAgent ;;
  logEvent SESSION_START (username userData)
           [("credentialId", VStr cred); ("userAgent", VStr ua)] ;;
  startInactivityTimer ;;
  ret token.

(** [getSessionDuration]: whole seconds since the start, 0 without one. *)
Definition getSessionDuration : M Z :=
  s <- gets sessionStart ;;
  t0 <- asks now ;;
  match s with
  | None => ret 0
  | Some start => ret ((t0 - start) / 1000)
  end.

(** [endSession(reason = 'user_logout')] *)
Definition endSession (reason : option string) : M unit :=
  let reason :=
    match reason with
    | Some r => r
    | None => "user_logout"
    end in
  a <- gets isAuthenticated ;;
  (if a then
     u <- gets sessionUser ;;
     d <- getSessionDuration ;;
     logEvent SESSION_END (or_else (option_map username u) "unknown")
              [("reason", VStr reason); ("duration", VNum d)]
   else ret tt) ;;
  t <- gets inactivityTimer ;;
  match t with
  | Some i =>
      clearTimeout i ;;
      modify_session (set_inactivityTimer None)
  | None => ret tt
  end ;;
  modify_session (set_isAuthenticated false) ;;
  modify_session (set_sessionUser None) ;;
  modify_session (set_sessionStart None) ;;
  modify_session (set_sessionToken None) ;;
  clearExpiredTokens.

(** [resetInactivityTimer] *)
Definition resetInactivityTimer : M unit :=
  a <- gets isAuthenticated ;;
  if a then startInactivityTimer else ret tt.

(** [updateSessionTimeout(newTimeout)] *)
Definition updateSessionTimeout (newTimeout : Z) : M unit :=
  modify_session (set_sessionTimeout newTimeout) ;;
  a <- gets isAuthenticated ;;
  if a then startInactivityTimer else ret tt.

(** The callback that [startSessionValidation] runs every minute. *)
Definition sessionValidation : M unit :=
  a <- gets isAuthenticated ;;
  tok <- gets sessionToken ;;
  t0 <- asks now ;;
  match tok with
  | Some t =>
      if a && truthy t then
        if negb (validateJWT t0 t) then endSession (Some "token_expired")
        else ret tt
      else ret tt
  | None => ret tt
  end.

(** ** Routes *)

(** [next()] is [ALLOW]; [next(p)] is [REDIRECT p]. *)
Inductive Decision : Type :=
| ALLOW
| REDIRECT (target : string).

(** A route as the router hands it to a guard: [to.path] and, for each
    record of [to.matched], its [meta.requiresAuth]. *)
Record Route : Type := mkRoute {
  path : string;
  matched : list bool
}.

(** The hook installed by [useRouteGuard]. *)
Definition useRouteGuard_beforeEach (to : Route) : M Decision :=
  let requiresAuth := existsb (fun r => r) (matched to) in
  a <- gets isAuthenticated ;;
  if requiresAuth && negb a then
    hasValidSession <- initSession ;;
    if negb hasValidSession then ret (REDIRECT "/auth") else ret ALLOW
  else ret ALLOW.

(** The hook installed on every component by [withSession]. *)
Definition withSession_onMounted : M unit :=
  a <- gets isAuthenticated ;;
  if negb a then _ <- initSession ;; ret tt else ret tt.

(** ** middleware/auth.js *)

Inductive RouteType : Type :=
| PUBLIC
| PROTECTED
| AUTH_ONLY.

Definition RouteType_eqb (a b : RouteType) : bool :=
  match a, b with
  | PUBLIC, PUBLIC => true
  | PROTECTED, PROTECTED => true
  | AUTH_ONLY, AUTH_ONLY => true
  | _, _ => false
  end.

Definition routeConfig : list (string * RouteType) :=
  [("/", PUBLIC);
   ("/auth", AUTH_ONLY);
   ("/dashboard", PROTECTED);
   ("/security", PROTECTED);
   ("/profile", PROTECTED)].

(** [routeConfig[path]] on the entries of the table.  A key that the
    object only inherits ([constructor], [toString], ...) yields a function
    or an object there; such a value is truthy and differs from every
    [RouteType] string, so both predicates below are false on it, as they
    are on [PUBLIC]. *)
Fixpoint lookup (p : string) (l : list (string * RouteType)) : option RouteType :=
  match l with
  | [] => None
  | (k, v) :: rest => if String.eqb k p then Some v else lookup p rest
  end.

(** [routeConfig[path] || RouteType.PUBLIC] *)
Definition routeTypeOf (p : string) : RouteType :=
  match lookup p routeConfig with
  | Some t => t
  | None => PUBLIC
  end.

Definition requiresAuthentication (p : string) : bool :=
  RouteType_eqb (routeTypeOf p) PROTECTED.

Definition isAuthenticationRoute (p : string) : bool :=
  RouteType_eqb (routeTypeOf p) AUTH_ONLY.

(** [checkAuthentication]: the store and the codec are asked; the session
    refs are not. *)
Definition checkAuthentication : M bool :=
  try_catch
    (token <- getValidToken ;;
     t0 <- asks now ;;
     match token with
     | None => ret false
     | Some t =>
         if negb (truthy t) then ret false
         else if negb (validateJWT t0 t) then
                clearExpiredTokens ;; ret false
              else ret true
     end)
    (fun _ => ret false).

(** [logRouteAccess(path, isAuthenticated)] *)
Definition logRouteAccess (p : string) (isAuth : bool) : M unit :=
  try_catch
    (t0 <- asks now ;;
     logEvent ROUTE_ACCESS (if isAuth then "authenticated" else "anonymous")
              [("path", VStr p); ("authenticated", VBool isAuth);
               ("timestamp", VNum t0)])
    (fun _ => ret tt).

(** The [beforeEach] hook of [AuthMiddleware.setupInterceptors]. *)
Definition AuthMiddleware_beforeEach (to : Route) : M Decision :=
  let requiresAuth := requiresAuthentication (path to) in
  let isAuthRoute := isAuthenticationRoute (path to) in
  isAuth <- checkAuthentication ;;
  if requiresAuth && negb isAuth then
    ua <- asks userAgent ;;
    logEvent UNAUTHORIZED_ACCESS "system"
             [("path", VStr (path to)); ("userAgent", VStr ua)] ;;
    ret (REDIRECT "/auth")
  else if isAuthRoute && isAuth then ret (REDIRECT "/dashboard")
  else
    logRouteAccess (path to) isAuth ;;
    ret ALLOW.

(** [routeConfig[path] === RouteType.PROTECTED], without the default. *)
Definition isProtected (p : string) : bool :=
  match lookup p routeConfig with
  | Some PROTECTED => true
  | _ => false
  end.

(** [useRouteProtection().checkRouteAccess(path)] *)
Definition checkRouteAccess (p : string) : M bool :=
  if isProtected p then
    token <- getValidToken ;;
    t0 <- asks now ;;
    let isValid :=
      match token with
      | Some t => if truthy t then validateJWT t0 t else false
      | None => false
      end in
    if negb isValid then throw AccessDenied else ret true
  else ret true.

(** The hook installed by [useNavigationGuard]. *)
Definition useNavigationGuard_beforeEach (to : Route) : M Decision :=
  try_catch
    (_ <- checkRouteAccess (path to) ;; ret ALLOW)
    (fun _ => ret (REDIRECT "/auth")).


(** ** Runs of the session manager *)

(** The calls a client, a timer or the validator can make. *)
Inductive Call : Type :=
| CallInitSession
| CallStartSession (userData : User) (cred : string)
| CallEndSession (reason : option string)
| CallUpdateSessionTimeout (newTimeout : Z)
| CallResetInactivityTimer
| CallSessionValidation.

(** The state after a call, whether it returned or threw. *)
Definition after (c : Call) (m : Machine) : Machine :=
  match c with
  | CallInitSession => snd (initSession m)
  | CallStartSession u cred => snd (startSession u cred m)
  | CallEndSession r => snd (endSession r m)
  | CallUpdateSessionTimeout n => snd (updateSessionTimeout n m)
  | CallResetInactivityTimer => snd (resetInactivityTimer m)
  | CallSessionValidation => snd (sessionValidation m)
  end.

(** The states of a session manager: it starts empty in some world, calls
    are made one after the other, and between two calls the world may change
    in any way (time passes, stored tokens expire, later calls fail).  Each
    call has returned or thrown before the next is made; calls that overlap
    at their awaits are played by [play] below. *)
Inductive reachable : Machine -> Prop :=
| reachable_fresh (w : World) : reachable (mkMachine emptySession w)
| reachable_call (c : Call) (m : Machine) :
    reachable m -> reachable (after c m)
| reachable_world (m : Machine) (w : World) :
    reachable m -> reachable (mkMachine (session m) w).

(** The invariant of the data model: authenticated exactly when a token is
    held, and a user only when authenticated. *)
Definition session_invariant (s : Session) : Prop :=
  (isAuthenticated s = true <-> sessionToken s <> None) /\
  (sessionUser s <> None -> isAuthenticated s = true).

(** The session as fully signed in: flag, token, start and a pending
    inactivity deadline, all present. *)
Definition signed_in (m : Machine) : bool :=
  isAuthenticated (session m) &&
  match sessionToken (session m), sessionStart (session m),
        inactivityTimer (session m) with
  | Some _, Some _, Some i =>
      existsb (fun p => Pos.eqb (fst p) i) (timers (world m))
  | _, _, _ => false
  end.

(** The session as fully signed out. *)
Definition signed_out (m : Machine) : bool :=
  negb (isAuthenticated (session m)) &&
  match sessionUser (session m), sessionToken (session m),
        sessionStart (session m), inactivityTimer (session m) with
  | None, None, None, None => true
  | _, _, _, _ => false
  end.

(** A store that has just been purged holds no expired token. *)
Definition store_fresh (w : World) : Prop :=
  forall e, tokenStore w = Some e -> expired (now w) e = false.

(** The store holds a token that has not expired and that the codec
    accepts now. *)
Definition valid_token_available (w : World) : bool :=
  match tokenStore w with
  | Some entry =>
      negb (expired (now w) entry) && truthy (fst entry) &&
      validateJWT (now w) (fst entry)
  | None => false
  end.

End SessionManager.

(** ** The rest of useSession.js *)

(** A number in a template literal: the decimal digits of an integer, with
    a minus sign when it is negative. *)
Definition showNumber (n : Z) : string :=
  DecimalString.NilZero.string_of_int (Z.to_int n).

(** [formatSessionDuration]: [%] is the remainder that takes the sign of
    the dividend, [Math.floor] of a quotient is the floored division. *)
Definition formatSessionDuration : M string :=
  duration <- getSessionDuration ;;
  let hours := duration / 3600 in
  let minutes := Z.rem duration 3600 / 60 in
  let seconds := Z.rem duration 60 in
  if 0 <? hours then
    ret (showNumber hours ++ "h " ++ showNumber minutes ++ "m " ++
         showNumber seconds ++ "s")
  else if 0 <? minutes then
    ret (showNumber minutes ++ "m " ++ showNumber seconds ++ "s")
  else ret (showNumber seconds ++ "s").

(** The object that the computed [sessionInfo] evaluates to. *)
Record SessionInfo : Type := mkSessionInfo {
  infoIsAuthenticated : bool;
  infoUser : option User;
  infoStartTime : option Z;
  infoDuration : Z;
  infoFormattedDuration : string;
  infoTimeout : Z
}.

(** [sessionInfo.value] *)
Definition sessionInfo : M SessionInfo :=
  a <- gets isAuthenticated ;;
  u <- gets sessionUser ;;
  st <- gets sessionStart ;;
  d <- getSessionDuration ;;
  f <- formatSessionDuration ;;
  n <- gets sessionTimeout ;;
  ret (mkSessionInfo a u st d f n).

(** The page runs the callback that [startInactivityTimer] gave to
    [setTimeout], for the pending timeout [i], once its deadline has passed:
    the entry leaves the pending timeouts and the callback calls
    [endSession('inactivity_timeout')].  A timeout that is not pending, or
    not yet due, does not run. *)
Definition timeoutFires (i : positive) : M unit :=
  l <- asks timers ;;
  t0 <- asks now ;;
  n <- asks nextTimer ;;
  if existsb (fun p => Pos.eqb (fst p) i && (snd p <=? t0)) l then
    modify_world
      (set_timers (filter (fun p => negb (Pos.eqb (fst p) i)) l) n) ;;
    endSession (Some "inactivity_timeout")
  else ret tt.

(** ** The rest of middleware/auth.js *)

Section RouteProtection.

Variable validateJWT : Z -> string -> bool.

(** [beforeRouteEnter] of the mixin that [AuthMiddleware.install] adds to
    every component. *)
Definition beforeRouteEnter (to : Route) : M Decision :=
  if isProtected (path to) then
    token <- getValidToken ;;
    t0 <- asks now ;;
    let isValid :=
      match token with
      | Some t => if truthy t then validateJWT t0 t else false
      | None => false
      end in
    if negb isValid then ret (REDIRECT "/auth") else ret ALLOW
  else ret ALLOW.

(** [beforeRouteUpdate] of the same mixin. *)
Definition beforeRouteUpdate (to : Route) : M Decision :=
  if isProtected (path to) then
    token <- getValidToken ;;
    t0 <- asks now ;;
    let isValid :=
      match token with
      | Some t => if truthy t then validateJWT t0 t else false
      | None => false
      end in
    if negb isValid then ret (REDIRECT "/auth") else ret ALLOW
  else ret ALLOW.

(** [useRouteProtection().withAuth(fn)], called while
    [window.location.pathname] is [pathname]. *)
Definition withAuth {A : Type} (pathname : string) (fn : M A) : M A :=
  _ <- checkRouteAccess validateJWT pathname ;;
  fn.

End RouteProtection.

(** ** setupCSP *)

(** [byte.toString(16)]: lower-case digits, no leading zero. *)
Definition toString16 (b : Byte.byte) : string :=
  HexadecimalString.NilZero.string_of_uint (N.to_hex_uint (Byte.to_N b)).

(** The first [k] characters of [pad] repeated for ever, [cur] being what
    is left of the current copy. *)
Fixpoint filler (k : nat) (pad cur : string) : string :=
  match k with
  | O => ""
  | S k' =>
      match cur with
      | String c rest => String c (filler k' pad rest)
      | EmptyString =>
          match pad with
          | String c rest => String c (filler k' pad rest)
          | EmptyString => ""
          end
      end
  end.

(** [s.padStart(target, pad)] *)
Definition padStart (target : nat) (pad s : string) : string :=
  if (String.length s <? target)%nat
  then filler (target - String.length s) pad pad ++ s
  else s.

(** [generateNonce], given the bytes that [crypto.getRandomValues] wrote
    into the array. *)
Definition generateNonce (array : list Byte.byte) : string :=
  String.concat "" (map (fun b => padStart 2 "0" (toString16 b)) array).

(** The value of a lower-case hexadecimal digit. *)
Definition hexDigitValue (c : ascii) : option N :=
  match nat_of_ascii c with
  | 48%nat => Some 0%N | 49%nat => Some 1%N | 50%nat => Some 2%N
  | 51%nat => Some 3%N | 52%nat => Some 4%N | 53%nat => Some 5%N
  | 54%nat => Some 6%N | 55%nat => Some 7%N | 56%nat => Some 8%N
  | 57%nat => Some 9%N
  | 97%nat => Some 10%N | 98%nat => Some 11%N | 99%nat => Some 12%N
  | 100%nat => Some 13%N | 101%nat => Some 14%N | 102%nat => Some 15%N
  | _ => None
  end.

Definition isLowerHex (c : ascii) : bool :=
  match hexDigitValue c with
  | Some _ => true
  | None => false
  end.

(** Reading a nonce back: two digits to the byte, none left over. *)
Fixpoint parseHex (s : string) : option (list Byte.byte) :=
  match s with
  | EmptyString => Some []
  | String c1 (String c2 rest) =>
      match hexDigitValue c1, hexDigitValue c2, parseHex rest with
      | Some h, Some l, Some bytes =>
          option_map (fun b => b :: bytes) (Byte.of_N (16 * h + l))
      | _, _, _ => None
      end
  | String _ EmptyString => None
  end.

(** The characters that [\s] matches, among those of one byte: tab, line
    feed, vertical tab, form feed, carriage return and space.  The template
    of the policy holds no other white space. *)
Definition isSpace (c : ascii) : bool :=
  match nat_of_ascii c with
  | 9%nat | 10%nat | 11%nat | 12%nat | 13%nat | 32%nat => true
  | _ => false
  end.

(** No character of [s] is white space. *)
Fixpoint no_space (s : string) : bool :=
  match s with
  | EmptyString => true
  | String c rest => negb (isSpace c) && no_space rest
  end.

(** [s.replace(/\s+/g, ' ')]; [inRun] says that the character before was
    white space. *)
Fixpoint collapse (inRun : bool) (s : string) : string :=
  match s with
  | EmptyString => ""
  | String c rest =>
      if isSpace c then
        if inRun then collapse true rest else String " " (collapse true rest)
      else String c (collapse false rest)
  end.

Fixpoint trimStart (s : string) : string :=
  match s with
  | EmptyString => ""
  | String c rest => if isSpace c then trimStart rest else s
  end.

Fixpoint trimEnd (s : string) : string :=
  match s with
  | EmptyString => ""
  | String c rest =>
      match trimEnd rest with
      | EmptyString => if isSpace c then "" else String c ""
      | kept => String c kept
      end
  end.

(** [s.trim()] *)
Definition trim (s : string) : string := trimEnd (trimStart s).

Definition newline : string := String (ascii_of_nat 10) "".

(** The template literal of [setupCSPMetaTag], before it is tidied. *)
Definition cspTemplate (nonce : string) (trustedTypesPolicy : bool) : string :=
  newline ++
  "      default-src 'self';" ++ newline ++
  "      script-src 'self' 'nonce-" ++ nonce ++
  "' 'strict-dynamic' https: 'unsafe-inline';" ++ newline ++
  "      style-src 'self' 'unsafe-inline' https://fonts.googleapis.com;" ++
  newline ++
  "      font-src 'self' https://fonts.gstatic.com;" ++ newline ++
  "      connect-src 'self' https://api.yourapi.com;" ++ newline ++
  "      object-src 'none';" ++ newline ++
  "      base-uri 'self';" ++ newline ++
  "      form-action 'self';" ++ newline ++
  "      frame-ancestors 'none';" ++ newline ++
  "      " ++
  (if trustedTypesPolicy then "require-trusted-types-for 'script';" else "") ++
  newline ++
  "    ".

(** The constant [csp] of [setupCSPMetaTag]. *)
Definition cspContent (nonce : string) (trustedTypesPolicy : bool) : string :=
  trim (collapse false (cspTemplate nonce trustedTypesPolicy)).

(** A [meta] element, and the part of the document that [applyCSP] works
    on: the children of [head] and the [nonce] of each [script] element
    (the empty string when it has none). *)
Record Meta : Type := mkMeta {
  httpEquiv : string;
  content : string
}.

Record Document : Type := mkDocument {
  head : list Meta;
  scripts : list string
}.

(** [setupCSPMetaTag], for the [nonce] that [setupCSP] generated. *)
Definition setupCSPMetaTag (nonce : string) (trustedTypesPolicy : bool)
    (doc : Document) : string * Document :=
  let csp := cspContent nonce trustedTypesPolicy in
  let meta := mkMeta "Content-Security-Policy" csp in
  (nonce, mkDocument (head doc ++ [meta]) (scripts doc)).

(** [applyCSP] *)
Definition applyCSP (nonce : string) (trustedTypesPolicy : bool)
    (doc : Document) : string * Document :=
  let (scriptNonce, doc1) := setupCSPMetaTag nonce trustedTypesPolicy doc in
  (scriptNonce,
   mkDocument (head doc1)
              (map (fun n => if negb (truthy n) then scriptNonce else n)
                   (scripts doc1))).

(** ** Calls that overlap *)

(** The functions of [useSession] are asynchronous.  A call runs up to its
    next [await] and is suspended there; other calls, timeouts and handlers
    run before it goes on.  A [Task] is a call at such a point: [Done a], it
    has returned [a]; [Await rest], it is suspended, and [rest] is what runs
    without interruption when its turn comes, up to the next suspension. *)
#[local] Set Warnings "-register-all".
Inductive Task (A : Type) : Type :=
| Done (a : A)
| Await (rest : M (Task A)).
#[local] Set Warnings "register-all".
Arguments Done {A} a.
Arguments Await {A} rest.

(** [await call(...)] followed by [k]: the call to the collaborator is
    issued and the function is suspended; at some later turn the
    collaborator does its work; at a later turn again the function goes on
    with the answer.  A call that rejects ends the function, which has no
    handler. *)
Definition await {A B : Type} (call : M A) (k : A -> M (Task B))
    : M (Task B) :=
  ret (Await (a <- call ;; ret (Await (k a)))).

(** A task run to its end with nothing in between. *)
Fixpoint finish {A : Type} (t : Task A) (m : Machine) : Res A * Machine :=
  match t with
  | Done a => (Ok a, m)
  | Await rest =>
      match rest m with
      | (Ok t', m') => finish t' m'
      | (Throw e, m') => (Throw e, m')
      end
  end.

(** [await t] followed by [k], for a task [t] of this module: [k] goes on
    in a turn after [t] has returned. *)
Fixpoint andThen {A B : Type} (t : Task A) (k : A -> M (Task B)) : Task B :=
  match t with
  | Done a => Await (k a)
  | Await rest =>
      Await (fun m =>
               match rest m with
               | (Ok t', m') => (Ok (andThen t' k), m')
               | (Throw e, m') => (Throw e, m')
               end)
  end.

(** A suspended call, whatever it returns. *)
Definition Suspended : Type := {A : Type & Task A}.

(** The page: the state, and the calls that are suspended. *)
Record Page : Type := mkPage {
  machine : Machine;
  suspended : list Suspended
}.

Section Overlap.

Variable generateJWT : Claims -> string.
Variable validateJWT : Z -> string -> bool.

(** [initSession], await by await. *)
Definition initSession_async : M (Task bool) :=
  await getValidToken (fun token =>
  t0 <- asks now ;;
  match token with
  | Some t =>
      if truthy t && validateJWT t0 t then
        modify_session (set_sessionToken (Some t)) ;;
        modify_session (set_isAuthenticated true) ;;
        modify_session (set_sessionStart (Some t0)) ;;
        await (logEvent SESSION_START "system"
                        [("token", VStr (substring 0 10 t ++ "..."))])
              (fun _ =>
        startInactivityTimer ;;
        ret (Done true))
      else ret (Done false)
  | None => ret (Done false)
  end).

(** [startSession], await by await. *)
Definition startSession_async (userData : User) (cred : string)
    : M (Task string) :=
  t0 <- asks now ;;
  token <- external CodecError
             (ret (generateJWT
                     (mkClaims (or_else (id userData) "anonymous")
                               (username userData) cred t0))) ;;
  n <- gets sessionTimeout ;;
  await (storeToken token n) (fun _ =>
  modify_session (set_sessionToken (Some token)) ;;
  modify_session (set_isAuthenticated true) ;;
  modify_session (set_sessionUser (Some userData)) ;;
  t1 <- asks now ;;
  modify_session (set_sessionStart (Some t1)) ;;
  ua <- asks userAgent ;;
  await (logEvent SESSION_START (username userData)
                  [("credentialId", VStr cred); ("userAgent", VStr ua)])
        (fun _ =>
  startInactivityTimer ;;
  ret (Done token))).

(** The statements of [endSession] that follow the log write. *)
Definition endSession_clear : M (Task unit) :=
  t <- gets inactivityTimer ;;
  match t with
  | Some i =>
      clearTimeout i ;;
      modify_session (set_inactivityTimer None)
  | None => ret tt
  end ;;
  modify_session (set_isAuthenticated false) ;;
  modify_session (set_sessionUser None) ;;
  modify_session (set_sessionStart None) ;;
  modify_session (set_sessionToken None) ;;
  await clearExpiredTokens (fun _ => ret (Done tt)).

(** [endSession], await by await: a session that is not authenticated goes
    on to the clearing in the same turn. *)
Definition endSession_async (reason : option string) : M (Task unit) :=
  let reason :=
    match reason with
    | Some r => r
    | None => "user_logout"
    end in
  a <- gets isAuthenticated ;;
  if a then
    u <- gets sessionUser ;;
    d <- getSessionDuration ;;
    await (logEvent SESSION_END (or_else (option_map username u) "unknown")
                    [("reason", VStr reason); ("duration", VNum d)])
          (fun _ => endSession_clear)
  else endSession_clear.

(** The callback of [startSessionValidation], which awaits [endSession]. *)
Definition sessionValidation_async : M (Task unit) :=
  a <- gets isAuthenticated ;;
  tok <- gets sessionToken ;;
  t0 <- asks now ;;
  match tok with
  | Some t =>
      if a && truthy t then
        if negb (validateJWT t0 t) then
          e <- endSession_async (Some "token_expired") ;;
          ret (andThen e (fun _ => ret (Done tt)))
        else ret (Done tt)
      else ret (Done tt)
  | None => ret (Done tt)
  end.

(** The page runs the callback of the pending timeout [i], which calls
    [endSession('inactivity_timeout')] and does not wait for it.  When the
    page does so is left to the page: it may be at the deadline, or at
    once for a delay beyond 32 bits. *)
Definition timeoutRuns (i : positive) : M (Task unit) :=
  l <- asks timers ;;
  n <- asks nextTimer ;;
  if existsb (fun p => Pos.eqb (fst p) i) l then
    modify_world
      (set_timers (filter (fun p => negb (Pos.eqb (fst p) i)) l) n) ;;
    endSession_async (Some "inactivity_timeout")
  else ret (Done tt).

Definition suspend {A : Type} (p : M (Task A)) : M Suspended :=
  t <- p ;;
  ret (existT Task A t).

(** A call is made: it runs up to its first suspension. *)
Definition begin (c : Call) : M Suspended :=
  match c with
  | CallInitSession => suspend initSession_async
  | CallStartSession u cred => suspend (startSession_async u cred)
  | CallEndSession r => suspend (endSession_async r)
  | CallUpdateSessionTimeout n =>
      suspend (updateSessionTimeout n ;; ret (Done tt))
  | CallResetInactivityTimer =>
      suspend (resetInactivityTimer ;; ret (Done tt))
  | CallSessionValidation => suspend sessionValidation_async
  end.

(** What can happen next on the page: a call is made, a timeout runs, the
    [k]-th suspended call goes on, or the world changes (the clock, the
    store, which calls fail) with the pending timeouts as they are. *)
Inductive Move : Type :=
| Begins (c : Call)
| TimeoutRuns (i : positive)
| GoesOn (k : nat)
| WorldChanges (w : World).

Definition enter (p : M Suspended) (pg : Page) : Page :=
  match p (machine pg) with
  | (Ok s, m') => mkPage m' (suspended pg ++ [s])
  | (Throw _, m') => mkPage m' (suspended pg)
  end.

Definition goesOn (k : nat) (pg : Page) : Page :=
  let l := suspended pg in
  match nth_error l k with
  | Some (existT _ A (Await rest)) =>
      match rest (machine pg) with
      | (Ok t', m') =>
          mkPage m' (firstn k l ++ existT Task A t' :: skipn (S k) l)
      | (Throw _, m') => mkPage m' (firstn k l ++ skipn (S k) l)
      end
  | Some (existT _ _ (Done _)) =>
      mkPage (machine pg) (firstn k l ++ skipn (S k) l)
  | None => pg
  end.

Definition worldChanges (w : World) (pg : Page) : Page :=
  let old := world (machine pg) in
  mkPage (mkMachine (session (machine pg))
                    (mkWorld (now w) (userAgent w) (tokenStore w)
                             (eventLog w) (timers old) (nextTimer old)
                             (faultAt w) (calls w)))
         (suspended pg).

Definition move (mv : Move) (pg : Page) : Page :=
  match mv with
  | Begins c => enter (begin c) pg
  | TimeoutRuns i => enter (suspend (timeoutRuns i)) pg
  | GoesOn k => goesOn k pg
  | WorldChanges w => worldChanges w pg
  end.

(** The page after a sequence of moves. *)
Definition play (moves : list Move) (pg : Page) : Page :=
  fold_left (fun p mv => move mv p) moves pg.

End Overlap.

(** A call run to its end with nothing in between: the state it leaves. *)
Definition uninterrupted (p : M Suspended) (m : Machine) : Machine :=
  match p m with
  | (Ok s, m') => snd (finish (projT2 s) m')
  | (Throw _, m') => m'
  end.

(** A page on which nothing has been called yet. *)
Definition freshPage (w : World) : Page :=
  mkPage (mkMachine emptySession w) [].

(** At most one deadline is pending, and it is the one the session holds. *)
Definition one_deadline (m : Machine) : Prop :=
  timers (world m) = [] \/
  exists i d,
    inactivityTimer (session m) = Some i /\ timers (world m) = [(i, d)].

(** The session has a start time exactly when it is authenticated. *)
Definition session_start_invariant (s : Session) : Prop :=
  isAuthenticated s = true <-> sessionStart s <> None.

(** The invariants of the data model. *)
Definition session_invariants (m : Machine) : Prop :=
  session_invariant (session m) /\ session_start_invariant (session m).

(** Every turn of a task keeps [Inv]. *)
Inductive safe (Inv : Machine -> Prop) {A : Type} : Task A -> Prop :=
| safe_Done (a : A) : safe Inv (Done a)
| safe_Await (rest : M (Task A)) :
    (forall m, Inv m -> Inv (snd (rest m))) ->
    (forall m t, Inv m -> fst (rest m) = Ok t -> safe Inv t) ->
    safe Inv (Await rest).

(** A call keeps [Inv] up to its first suspension and in every turn
    after. *)
Definition safe_start (Inv : Machine -> Prop) {A : Type} (p : M (Task A))
    : Prop :=
  forall m,
    Inv m ->
    Inv (snd (p m)) /\ forall t, fst (p m) = Ok t -> safe Inv t.

(** ** Concrete inputs *)

(** A codec to run the model with: a token is a fixed header followed by the
    user name, and is accepted for an hour after the epoch of the examples. *)
Definition demo_generateJWT (c : Claims) : string :=
  "eyJhbGciOi." ++ claimUsername c.

Definition demo_validateJWT (t0 : Z) (t : string) : bool :=
  prefix "eyJhbGciOi." t && (t0 <=? 3600000).

Definition alice : User := mkUser None "alice" "Alice".

(** A page at time 1000 s whose store is empty and whose calls all succeed. *)
Definition emptyWorld : World :=
  mkWorld 1000000 "Mozilla/5.0" None [] [] 1%positive (fun _ => false) 0.

(** The same page with a token in the store that expires at 1900 s. *)
Definition tokenWorld : World :=
  mkWorld 1000000 "Mozilla/5.0" (Some ("eyJhbGciOi.alice", 1900000)) [] []
          1%positive (fun _ => false) 0.

(** The page with a token, where the second call to a collaborator fails. *)
Definition secondCallFails : World :=
  mkWorld 1000000 "Mozilla/5.0" (Some ("eyJhbGciOi.alice", 1900000)) [] []
          1%positive (fun k => Nat.eqb k 1) 0.

(** The page with an empty store, where the third call to a collaborator
    fails. *)
Definition thirdCallFails : World :=
  mkWorld 1000000 "Mozilla/5.0" None [] [] 1%positive (fun k => Nat.eqb k 2) 0.

Definition dashboard : Route := mkRoute "/dashboard" [true].
Definition authPage : Route := mkRoute "/auth" [false].
Definition home : Route := mkRoute "/" [false].

(** A session signed in by [startSession] for alice at time 400 s, seen at
    time 1000 s. *)
Definition aliceSession : Session :=
  mkSession true (Some alice) (Some 400000) 900 (Some 1%positive)
            (Some "eyJhbGciOi.alice").

Definition aliceWorld : World :=
  mkWorld 1000000 "Mozilla/5.0" (Some ("eyJhbGciOi.alice", 1300000)) []
          [(1%positive, 1300000)] 2%positive (fun _ => false) 0.



(** The world at another time. *)
Definition atTime (t : Z) (w : World) : World :=
  mkWorld t (userAgent w) (tokenStore w) (eventLog w) (timers w)
          (nextTimer w) (faultAt w) (calls w).

(** The page of alice when the deadline of her session has come. *)
Definition dueWorld : World :=
  mkWorld 1300000 "Mozilla/5.0" (Some ("eyJhbGciOi.alice", 1300000)) []
          [(1%positive, 1300000)] 2%positive (fun _ => false) 0.

(** The page of alice later than an hour after the epoch, when the codec of
    the examples rejects her token; activity has moved her deadline. *)
Definition staleWorld : World :=
  mkWorld 4000000 "Mozilla/5.0" None [] [(1%positive, 4900000)] 2%positive
          (fun _ => false) 0.

(** The page with a token in the store, where the first call to a
    collaborator fails. *)
Definition firstCallFails : World :=
  mkWorld 1000000 "Mozilla/5.0" (Some ("eyJhbGciOi.alice", 1900000)) []
          [(1%positive, 1300000)] 2%positive (fun k => Nat.eqb k 0) 0.

(** Thirty-two bytes as [crypto.getRandomValues] may write them, and a
    document with a script that has no nonce and one that has. *)
Definition sampleBytes : list Byte.byte :=
  List.repeat Byte.x0a 16 ++ List.repeat Byte.xf3 16.

Definition sampleDocument : Document :=
  mkDocument [] [""; "preset"].

(** Moves in which [endSession] runs between the awaits of [startSession]:
    [startSession] is called and goes on, past its write to the store, up
    to its log write; [endSession] is called, writes its log entry and
    clears the session; then [startSession] goes on and starts the
    inactivity timer. *)
Definition overlappingMoves : list Move :=
  [Begins (CallStartSession alice "cred1"); GoesOn 0; GoesOn 0;
   Begins (CallEndSession None); GoesOn 1; GoesOn 1;
   GoesOn 0; GoesOn 0].

(** ** Properties *)

Section Properties.

Variable generateJWT : Claims -> string.
Variable validateJWT : Z -> string -> bool.

Ltac unfold_js :=
  unfold initSession, startSession, endSession,
    resetInactivityTimer, updateSessionTimeout, sessionValidation,
    getSessionDuration, startInactivityTimer,
    useRouteGuard_beforeEach, withSession_onMounted,
    checkAuthentication, logRouteAccess,
    AuthMiddleware_beforeEach, checkRouteAccess,
    getValidToken, storeToken, clearExpiredTokens, logEvent,
    setTimeout, clearTimeout, external, try_catch, throw,
    bind, ret, gets, asks, modify_session, modify_world in *.

(** One case split of a symbolic run: on a value of the state first, then
    on the outcome of the next call to a collaborator, then on a test. *)
Ltac branch :=
  match goal with
  | |- context [match ?x with _ => _ end] => is_var x; destruct x
  | |- context [if faultAt ?w ?k then _ else _] =>
      is_var w; let F := fresh "F" in destruct (faultAt w k) eqn:F
  | |- context [if ?f ?k then _ else _] =>
      is_var f; let F := fresh "F" in destruct (f k) eqn:F
  | |- context [match tokenStore ?w with _ => _ end] =>
      let S := fresh "S" in destruct (tokenStore w) eqn:S
  | |- context [andb ?x _] => is_var x; destruct x
  | |- context [negb ?x] => is_var x; destruct x
  | |- context [fst ?p] => is_var p; destruct p
  | |- context [expired ?t ?e] =>
      let E := fresh "E" in destruct (expired t e) eqn:E
  | |- context [truthy ?t] =>
      let T := fresh "T" in destruct (truthy t) eqn:T
  | |- context [validateJWT ?t ?e] =>
      let V := fresh "V" in destruct (validateJWT t e) eqn:V
  end.

Ltac run := repeat (progress unfold_js); simpl in *.

(** *** endSession *)


Lemma cleared_timer_not_pending (i : positive) (l : list (positive * Z)) :
  ~ In i (map fst (filter (fun p => negb (Pos.eqb (fst p) i)) l)).
Proof.
  induction l as [|[j d] l IH]; simpl; [tauto|].
  destruct (Pos.eqb_spec j i) as [->|Hne]; simpl; [exact IH|].
  intros [H|H]; [contradiction|exact (IH H)].
Qed.

(** When [endSession] returns, the five fields are cleared, the timeout is
    the old one, and the deadline that was pending is cancelled. *)
Lemma endSession_clears (r : option string) (m : Machine) :
  fst (endSession r m) = Ok tt ->
  session (snd (endSession r m)) =
    mkSession false None None (sessionTimeout (session m)) None None /\
  forall i, inactivityTimer (session m) = Some i ->
            ~ In i (map fst (timers (world (snd (endSession r m))))).
Proof.
  destruct m as [[a u st n tm tk] w].
  run. repeat (branch; simpl); intros H; try discriminate H;
    (split; [reflexivity|]); intros i Hi; inversion Hi; subst;
    apply cleared_timer_not_pending.
Qed.

(** *** What no call touches *)

(** No call of the session manager moves the clock, changes the user agent
    or changes which calls to the collaborators fail. *)
Lemma after_frame (c : Call) (m : Machine) :
  now (world (after generateJWT validateJWT c m)) = now (world m) /\
  userAgent (world (after generateJWT validateJWT c m)) = userAgent (world m) /\
  faultAt (world (after generateJWT validateJWT c m)) = faultAt (world m).
Proof.
  destruct m as [[a u st n tm tk] [t0 ua ts lg tmr nid fa cl]].
  destruct c; unfold after; run;
    repeat (branch; run); repeat split; reflexivity.
Qed.

Lemma endSession_frame (r : option string) (m : Machine) :
  now (world (snd (endSession r m))) = now (world m) /\
  faultAt (world (snd (endSession r m))) = faultAt (world m).
Proof.
  destruct m as [[a u st n tm tk] [t0 ua ts lg tmr nid fa cl]].
  run. repeat (branch; simpl); split; reflexivity.
Qed.



(** *** startSession *)

(** A run of [startSession] in which no call fails. *)
Lemma startSession_runs (u : User) (cred : string) (m : Machine) :
  (forall k, faultAt (world m) k = false) ->
  let tok := generateJWT (mkClaims (or_else (id u) "anonymous") (username u)
                                   cred (now (world m))) in
  let m' := snd (startSession generateJWT u cred m) in
  let deadline := now (world m) + sessionTimeout (session m) * 1000 in
  fst (startSession generateJWT u cred m) = Ok tok /\
  session m' = mkSession true (Some u) (Some (now (world m)))
                         (sessionTimeout (session m))
                         (Some (nextTimer (world m))) (Some tok) /\
  tokenStore (world m') = Some (tok, deadline) /\
  In (nextTimer (world m), deadline) (timers (world m')) /\
  eventLog (world m') =
    (eventLog (world m) ++
     [mkEvent SESSION_START (username u)
              [("credentialId", VStr cred);
               ("userAgent", VStr (userAgent (world m)))]
              (now (world m))])%list.
Proof.
  destruct m as [[a uu st n tm tk] [t0 ua ts lg tmr nid fa cl]].
  simpl. intros H. run.
  repeat (first [progress (rewrite ?H; simpl) | branch; simpl]);
    repeat split; auto.
Qed.



(** *** endSession, again *)

Lemma endSession_store_fresh (r : option string) (m : Machine) :
  fst (endSession r m) = Ok tt ->
  store_fresh (world (snd (endSession r m))).
Proof.
  destruct m as [[a u st n tm tk] [t0 ua ts lg tmr nid fa cl]].
  unfold store_fresh. run.
  repeat (branch; simpl); intros H e He; try discriminate;
    inversion He; subst; assumption.
Qed.

(** [endSession] on a session that is already cleared, over a purged store:
    nothing observable changes, and the only call made is the purge. *)
Lemma endSession_on_cleared (r : option string) (m : Machine) (n : Z) :
  session m = mkSession false None None n None None ->
  store_fresh (world m) ->
  let m' := snd (endSession r m) in
  session m' = session m /\
  tokenStore (world m') = tokenStore (world m) /\
  eventLog (world m') = eventLog (world m) /\
  timers (world m') = timers (world m) /\
  (faultAt (world m) (calls (world m)) = false ->
   fst (endSession r m) = Ok tt).
Proof.
  destruct m as [s [t0 ua ts lg tmr nid fa cl]].
  unfold store_fresh. simpl. intros -> Hs. run.
  destruct (fa cl); simpl; [repeat split; auto; discriminate|].
  destruct ts as [e|]; simpl; [|repeat split; auto].
  rewrite (Hs e eq_refl). simpl. repeat split; auto.
Qed.

(** [endSession] returns when no call fails. *)
Lemma endSession_returns (r : option string) (m : Machine) :
  (forall k, faultAt (world m) k = false) ->
  fst (endSession r m) = Ok tt.
Proof.
  destruct m as [[a u st n tm tk] [t0 ua ts lg tmr nid fa cl]].
  simpl. intros H. run.
  repeat (first [progress (rewrite ?H; simpl) | branch; simpl]); reflexivity.
Qed.

(** C6. Over a store whose calls succeed, [endSession] returns, a second
    [endSession] right after it returns too, and the second call leaves
    the session, the stored token, the event log and the pending timers
    exactly as the first call left them. *)
Theorem endSession_idempotent (r1 r2 : option string) (m : Machine) :
  (forall k, faultAt (world m) k = false) ->
  let m1 := snd (endSession r1 m) in
  let m2 := snd (endSession r2 m1) in
  fst (endSession r1 m) = Ok tt /\
  fst (endSession r2 m1) = Ok tt /\
  session m2 = session m1 /\
  tokenStore (world m2) = tokenStore (world m1) /\
  eventLog (world m2) = eventLog (world m1) /\
  timers (world m2) = timers (world m1).
Proof.
  intros H m1 m2.
  pose proof (endSession_returns r1 m H) as R1.
  destruct (endSession_clears r1 m R1) as [C _]. fold m1 in C.
  pose proof (endSession_store_fresh r1 m R1) as Fr. fold m1 in Fr.
  destruct (endSession_frame r1 m) as [_ F1]. fold m1 in F1.
  destruct (endSession_on_cleared r2 m1 _ C Fr) as (S & K & L & T & R2).
  fold m2 in S, K, L, T.
  repeat split; try assumption.
  apply R2. rewrite F1. apply H.
Qed.


(** *** initSession *)

Lemma count_kind_app (k : EventKind) (l1 l2 : list Event) :
  count_kind k (l1 ++ l2) = (count_kind k l1 + count_kind k l2)%nat.
Proof.
  unfold count_kind. rewrite filter_app, length_app. reflexivity.
Qed.

Lemma valid_token_available_inv (w : World) :
  valid_token_available validateJWT w = true ->
  exists t exp,
    tokenStore w = Some (t, exp) /\ expired (now w) (t, exp) = false /\
    truthy t = true /\ validateJWT (now w) t = true.
Proof.
  unfold valid_token_available.
  destruct (tokenStore w) as [[t exp]|]; [|discriminate].
  simpl. intros H.
  apply andb_prop in H. destruct H as [H V].
  apply andb_prop in H. destruct H as [E T].
  apply negb_true_iff in E.
  exists t, exp. repeat split; assumption.
Qed.

(** A run of [initSession] over a store with a valid token, when the fetch
    and the log write succeed.  Whether the session was authenticated
    before plays no part. *)
Lemma initSession_runs (m : Machine) (t : string) (exp : Z) :
  tokenStore (world m) = Some (t, exp) ->
  expired (now (world m)) (t, exp) = false ->
  truthy t = true ->
  validateJWT (now (world m)) t = true ->
  faultAt (world m) (calls (world m)) = false ->
  faultAt (world m) (S (calls (world m))) = false ->
  let m' := snd (initSession validateJWT m) in
  fst (initSession validateJWT m) = Ok true /\
  session m' = mkSession true (sessionUser (session m))
                         (Some (now (world m)))
                         (sessionTimeout (session m))
                         (Some (nextTimer (world m))) (Some t) /\
  eventLog (world m') =
    (eventLog (world m) ++
     [mkEvent SESSION_START "system"
              [("token", VStr (substring 0 10 t ++ "..."))]
              (now (world m))])%list /\
  tokenStore (world m') = tokenStore (world m) /\
  In (nextTimer (world m),
      now (world m) + sessionTimeout (session m) * 1000)
     (timers (world m')).
Proof.
  destruct m as [[a u st n tm tk] [t0 ua ts lg tmr nid fa cl]].
  simpl. intros -> E T V F0 F1. run.
  rewrite F0. simpl. simpl in E. rewrite E. simpl.
  rewrite T, V. simpl. rewrite F1. simpl.
  destruct tm; simpl; repeat split; auto.
Qed.

(** [endSession] does not remove a stored token that has not expired. *)
Lemma endSession_keeps_unexpired (r : option string) (m : Machine)
    (e : string * Z) :
  tokenStore (world m) = Some e ->
  expired (now (world m)) e = false ->
  tokenStore (world (snd (endSession r m))) = Some e.
Proof.
  destruct m as [[a u st n tm tk] [t0 ua ts lg tmr nid fa cl]].
  simpl. intros -> E. run.
  repeat (first [progress (rewrite ?E; simpl) | branch; simpl]); reflexivity.
Qed.

(** C9. [endSession] does not revoke a token that is still valid: if the
    store holds an unexpired token that the codec accepts, and the calls to
    the store succeed, then after [endSession], for any reason, the token
    is still in the store, and an [initSession] right after it returns
    true and leaves the session authenticated with that token. *)
Theorem endSession_then_initSession_resumes (r : option string) (m : Machine) :
  valid_token_available validateJWT (world m) = true ->
  (forall k, faultAt (world m) k = false) ->
  let m1 := snd (endSession r m) in
  let m2 := snd (initSession validateJWT m1) in
  isAuthenticated (session m1) = false /\
  tokenStore (world m1) = tokenStore (world m) /\
  fst (initSession validateJWT m1) = Ok true /\
  isAuthenticated (session m2) = true /\
  (exists e, tokenStore (world m) = Some e /\
             sessionToken (session m2) = Some (fst e)).
Proof.
  intros V H m1 m2.
  destruct (valid_token_available_inv _ V) as (t & exp & St & E & T & J).
  pose proof (endSession_returns r m H) as R.
  destruct (endSession_clears r m R) as [C _]. fold m1 in C.
  destruct (endSession_frame r m) as [N F]. fold m1 in N, F.
  pose proof (endSession_keeps_unexpired r m _ St E) as K. fold m1 in K.
  destruct (initSession_runs m1 t exp) as (I & S & _);
    rewrite ?N, ?F; auto.
  fold m2 in S.
  split; [rewrite C; reflexivity|].
  split; [rewrite K, St; reflexivity|].
  split; [exact I|].
  split; [rewrite S; reflexivity|].
  exists (t, exp). split; [exact St|rewrite S; reflexivity].
Qed.



(** *** The invariant of the session *)

Ltac invariant :=
  unfold session_invariant in *; simpl in *;
  intuition (try discriminate; try congruence).

Lemma emptySession_invariant : session_invariant emptySession.
Proof. invariant. Qed.

(** Every call keeps the invariant, whether it returns or throws. *)
Lemma after_invariant (c : Call) (m : Machine) :
  session_invariant (session m) ->
  session_invariant (session (after generateJWT validateJWT c m)).
Proof.
  destruct m as [[a u st n tm tk] [t0 ua ts lg tmr nid fa cl]].
  destruct c; unfold after; run; intros Inv;
    repeat (branch; run); invariant.
Qed.

(** [initSession] either leaves the session as it is or signs it in with a
    token that the codec has just accepted. *)
Lemma initSession_checked (m : Machine) :
  session (snd (initSession validateJWT m)) = session m \/
  exists t,
    sessionToken (session (snd (initSession validateJWT m))) = Some t /\
    isAuthenticated (session (snd (initSession validateJWT m))) = true /\
    validateJWT (now (world m)) t = true.
Proof.
  destruct m as [[a u st n tm tk] [t0 ua ts lg tmr nid fa cl]].
  run. repeat (branch; simpl); try (left; reflexivity);
    right; eexists; repeat split; eassumption.
Qed.

(** A session that is still authenticated when the periodic validation
    returns holds a token that the codec has just accepted. *)
Lemma sessionValidation_checked (m : Machine) (t : string) :
  fst (sessionValidation validateJWT m) = Ok tt ->
  isAuthenticated (session (snd (sessionValidation validateJWT m))) = true ->
  sessionToken (session (snd (sessionValidation validateJWT m))) = Some t ->
  truthy t = true ->
  validateJWT (now (world m)) t = true.
Proof.
  destruct m as [[a u st n tm tk] [t0 ua ts lg tmr nid fa cl]].
  run. repeat (branch; run); intros;
    try discriminate; congruence.
Qed.

(** A check that fails in [initSession] changes nothing of the session,
    authenticated or not. *)
Lemma initSession_failed_check (m : Machine) :
  valid_token_available validateJWT (world m) = false ->
  session (snd (initSession validateJWT m)) = session m.
Proof.
  destruct m as [s [t0 ua ts lg tmr nid fa cl]].
  unfold valid_token_available. simpl. intros V. run.
  destruct (fa cl); simpl; [reflexivity|].
  destruct ts as [[t exp]|]; simpl in *; [|reflexivity].
  destruct (expired t0 (t, exp)); simpl in *; [reflexivity|].
  destruct (truthy t); simpl in *; [|reflexivity].
  rewrite V. reflexivity.
Qed.

(** C2, as the code has it.  In every state reached from an empty session
    by calls of [initSession], [startSession], [endSession] (and of the
    timeout update, the inactivity reset and the periodic validation), in
    any order, in any world and whichever calls to the store fail, the
    session is authenticated exactly when it holds a token, and it holds a
    user only when it is authenticated.  The token need not have been valid
    at its last check.  [initSession] installs a token only when the codec
    has accepted it in that call, but a check that fails there leaves the
    session, authenticated or not, and its token as they are; it is the
    periodic validation that ends a session whose token the codec
    rejects, so that a session still authenticated when the validation
    returns holds a token accepted then. *)
Theorem reachable_session_invariant :
  (forall m, reachable generateJWT validateJWT m -> session_invariant (session m)) /\
  (forall m,
      session (snd (initSession validateJWT m)) = session m \/
      exists t,
        sessionToken (session (snd (initSession validateJWT m))) = Some t /\
        isAuthenticated (session (snd (initSession validateJWT m))) = true /\
        validateJWT (now (world m)) t = true) /\
  (forall m t,
      fst (sessionValidation validateJWT m) = Ok tt ->
      isAuthenticated (session (snd (sessionValidation validateJWT m))) = true ->
      sessionToken (session (snd (sessionValidation validateJWT m))) = Some t ->
      truthy t = true ->
      validateJWT (now (world m)) t = true) /\
  (forall m,
      valid_token_available validateJWT (world m) = false ->
      session (snd (initSession validateJWT m)) = session m).
Proof.
  split; [|split; [exact initSession_checked
                  |split; [exact sessionValidation_checked
                          |exact initSession_failed_check]]].
  induction 1 as [w|c m _ IH|m w _ IH].
  - exact emptySession_invariant.
  - apply after_invariant. exact IH.
  - exact IH.
Qed.


(** *** The navigation middleware *)

(** [checkAuthentication] never throws and touches neither the session nor
    the event log; it answers true only for a valid stored token, and does
    answer true for one when the fetch succeeds. *)
Lemma checkAuthentication_spec (m : Machine) :
  let r := checkAuthentication validateJWT m in
  (fst r = Ok true \/ fst r = Ok false) /\
  session (snd r) = session m /\
  eventLog (world (snd r)) = eventLog (world m) /\
  now (world (snd r)) = now (world m) /\
  userAgent (world (snd r)) = userAgent (world m) /\
  faultAt (world (snd r)) = faultAt (world m) /\
  (fst r = Ok true -> valid_token_available validateJWT (world m) = true) /\
  (valid_token_available validateJWT (world m) = true ->
   faultAt (world m) (calls (world m)) = false -> fst r = Ok true).
Proof.
  destruct m as [s [t0 ua ts lg tmr nid fa cl]].
  unfold valid_token_available. run.
  repeat (branch; simpl);
    repeat split; auto; intros; try discriminate; auto.
Qed.

(** [logRouteAccess] never throws: it appends its entry, or, when the write
    fails, nothing. *)
Lemma logRouteAccess_spec (p : string) (b : bool) (m : Machine) :
  fst (logRouteAccess p b m) = Ok tt /\
  session (snd (logRouteAccess p b m)) = session m /\
  eventLog (world (snd (logRouteAccess p b m))) =
    if faultAt (world m) (calls (world m)) then eventLog (world m)
    else (eventLog (world m) ++
          [mkEvent ROUTE_ACCESS (if b then "authenticated" else "anonymous")
                   [("path", VStr p); ("authenticated", VBool b);
                    ("timestamp", VNum (now (world m)))]
                   (now (world m))])%list.
Proof.
  destruct m as [s [t0 ua ts lg tmr nid fa cl]].
  run. destruct (fa cl); simpl; repeat split; reflexivity.
Qed.

(** The three exits of the hook, one by one. *)
Lemma beforeEach_unfold (to : Route) (m : Machine) :
  AuthMiddleware_beforeEach validateJWT to m =
  match checkAuthentication validateJWT m with
  | (Ok isAuth, m1) =>
      if requiresAuthentication (path to) && negb isAuth then
        if faultAt (world m1) (calls (world m1))
        then (Throw StoreError, mkMachine (session m1) (count_call (world m1)))
        else (Ok (REDIRECT "/auth"),
              mkMachine (session m1)
                (set_eventLog
                   (eventLog (world m1) ++
                    [mkEvent UNAUTHORIZED_ACCESS "system"
                             [("path", VStr (path to));
                              ("userAgent", VStr (userAgent (world m1)))]
                             (now (world m1))])
                   (count_call (world m1))))
      else if isAuthenticationRoute (path to) && isAuth
           then (Ok (REDIRECT "/dashboard"), m1)
           else (Ok ALLOW, snd (logRouteAccess (path to) isAuth m1))
  | (Throw e, m1) => (Throw e, m1)
  end.
Proof.
  unfold AuthMiddleware_beforeEach.
  unfold bind at 1.
  destruct (checkAuthentication validateJWT m) as [[isAuth|e] m1]; [|reflexivity].
  destruct (requiresAuthentication (path to) && negb isAuth).
  - destruct m1 as [s [t0 ua ts lg tmr nid fa cl]].
    unfold logEvent, external, bind, asks, modify_world, ret. simpl.
    destruct (fa cl); reflexivity.
  - destruct (isAuthenticationRoute (path to) && isAuth); [reflexivity|].
    unfold bind, ret.
    destruct (logRouteAccess_spec (path to) isAuth m1) as (R & _).
    destruct (logRouteAccess (path to) isAuth m1) as [r m2].
    simpl in *. rewrite R. reflexivity.
Qed.

(** C1, as the code has it.  The middleware does not call [initSession] and
    does not read or write the session: on a route that requires
    authentication it asks the store itself.  If the store has no valid
    token and the write of the log entry succeeds, the decision is
    [REDIRECT "/auth"] and exactly one [UNAUTHORIZED_ACCESS] entry, with the
    path and the user agent, is appended.  The hook of [useRouteGuard] is
    the one that calls [initSession] for an unauthenticated session on a
    route that requires authentication; if that returns false, its decision
    is [REDIRECT "/auth"] and it logs nothing. *)
Theorem protected_route_without_token :
  (forall to m,
      requiresAuthentication (path to) = true ->
      valid_token_available validateJWT (world m) = false ->
      faultAt (world m)
              (calls (world (snd (checkAuthentication validateJWT m)))) = false ->
      let m' := snd (AuthMiddleware_beforeEach validateJWT to m) in
      fst (AuthMiddleware_beforeEach validateJWT to m) = Ok (REDIRECT "/auth") /\
      session m' = session m /\
      eventLog (world m') =
        (eventLog (world m) ++
         [mkEvent UNAUTHORIZED_ACCESS "system"
                  [("path", VStr (path to));
                   ("userAgent", VStr (userAgent (world m)))]
                  (now (world m))])%list /\
      count_kind UNAUTHORIZED_ACCESS (eventLog (world m')) =
        S (count_kind UNAUTHORIZED_ACCESS (eventLog (world m)))) /\
  (forall to m,
      existsb (fun r => r) (matched to) = true ->
      isAuthenticated (session m) = false ->
      fst (initSession validateJWT m) = Ok false ->
      useRouteGuard_beforeEach validateJWT to m =
        (Ok (REDIRECT "/auth"), snd (initSession validateJWT m)) /\
      eventLog (world (snd (initSession validateJWT m))) = eventLog (world m)).
Proof.
  split.
  - intros to m P V F m'. unfold m'. clear m'.
    rewrite beforeEach_unfold.
    destruct (checkAuthentication_spec m) as (B & S & L & N & U & Fa & T & _).
    destruct (checkAuthentication validateJWT m) as [r m1]. simpl in *.
    destruct B as [-> | ->].
    + rewrite T in V by reflexivity. discriminate.
    + rewrite P. simpl. rewrite Fa, F. simpl.
      rewrite S, L, N, U. repeat split.
      rewrite count_kind_app. simpl. apply Nat.add_1_r.
  - intros to [[a u st n tm tk] [t0 ua ts lg tmr nid fa cl]] P A.
    simpl in A. subst a.
    unfold useRouteGuard_beforeEach, bind, gets, ret.
    simpl. rewrite P. simpl.
    destruct (initSession validateJWT _) as [[[|]|e] m1] eqn:I; simpl;
      intros R; try discriminate R.
    split; [reflexivity|].
    revert I. run. repeat (branch; simpl); intros I;
      inversion I; reflexivity.
Qed.


(** C4, as the code has it.  The hook writes a [ROUTE_ACCESS] entry only on
    the way to [ALLOW]: the entry carries the path and the result of the
    authentication check, and is dropped without harm when its write fails.
    Both redirects return before that: [REDIRECT "/auth"] has appended one
    [UNAUTHORIZED_ACCESS] entry instead, [REDIRECT "/dashboard"] none, and
    neither adds a [ROUTE_ACCESS] entry. *)
Theorem route_access_logged_on_allow_only (to : Route) (m m' : Machine)
    (d : Decision) :
  AuthMiddleware_beforeEach validateJWT to m = (Ok d, m') ->
  exists isAuth,
    fst (checkAuthentication validateJWT m) = Ok isAuth /\
    match d with
    | ALLOW =>
        eventLog (world m') =
          if faultAt (world m) (calls (world (snd (checkAuthentication validateJWT m))))
          then eventLog (world m)
          else (eventLog (world m) ++
                [mkEvent ROUTE_ACCESS
                         (if isAuth then "authenticated" else "anonymous")
                         [("path", VStr (path to));
                          ("authenticated", VBool isAuth);
                          ("timestamp", VNum (now (world m)))]
                         (now (world m))])%list
    | REDIRECT target =>
        count_kind ROUTE_ACCESS (eventLog (world m')) =
          count_kind ROUTE_ACCESS (eventLog (world m)) /\
        ((target = "/auth" /\
          eventLog (world m') =
            (eventLog (world m) ++
             [mkEvent UNAUTHORIZED_ACCESS "system"
                      [("path", VStr (path to));
                       ("userAgent", VStr (userAgent (world m)))]
                      (now (world m))])%list) \/
         (target = "/dashboard" /\
          eventLog (world m') = eventLog (world m)))
    end.
Proof.
  rewrite beforeEach_unfold.
  destruct (checkAuthentication_spec m) as (_ & S & L & N & U & Fa & _).
  destruct (checkAuthentication validateJWT m) as [[isAuth|e] m1]; simpl in *;
    [|discriminate].
  intros H. exists isAuth. split; [reflexivity|].
  destruct (requiresAuthentication (path to) && negb isAuth).
  - destruct (faultAt (world m1) (calls (world m1))); [discriminate|].
    inversion H; subst; clear H. simpl.
    rewrite L, N, U, count_kind_app. simpl.
    split; [apply Nat.add_0_r|]. left. split; reflexivity.
  - destruct (isAuthenticationRoute (path to) && isAuth).
    + inversion H; subst; clear H.
      rewrite L. split; [reflexivity|]. right. split; reflexivity.
    + inversion H; subst; clear H.
      destruct (logRouteAccess_spec (path to) isAuth m1) as (_ & _ & E).
      rewrite E, Fa, L, N. reflexivity.
Qed.

(** *** The policy table *)

Lemma isProtected_routeTypeOf (p : string) :
  isProtected p = true <-> routeTypeOf p = PROTECTED.
Proof.
  unfold isProtected, routeTypeOf.
  destruct (lookup p routeConfig) as [[| |]|]; split; intros H;
    try reflexivity; discriminate H.
Qed.

(** A route that is neither protected nor the authentication route is
    allowed, whatever the store holds and whichever calls fail. *)
Lemma open_route_allowed (to : Route) (m : Machine) :
  requiresAuthentication (path to) = false ->
  isAuthenticationRoute (path to) = false ->
  fst (AuthMiddleware_beforeEach validateJWT to m) = Ok ALLOW.
Proof.
  intros R A. rewrite beforeEach_unfold.
  destruct (checkAuthentication_spec m) as (B & _).
  destruct (checkAuthentication validateJWT m) as [r m1]. simpl in B.
  destruct B as [-> | ->]; rewrite R, A; reflexivity.
Qed.

(** C7. The decision of the middleware: on ["/auth"], with a valid token in
    the store (which is how the middleware knows an authenticated visitor),
    it is [REDIRECT "/dashboard"]; on ["/"] it is [ALLOW] in every state;
    and a path that the policy table does not list has the policy [PUBLIC]
    and is allowed in every state. *)
Theorem guard_decisions :
  (forall to m,
      path to = "/auth" ->
      valid_token_available validateJWT (world m) = true ->
      faultAt (world m) (calls (world m)) = false ->
      fst (AuthMiddleware_beforeEach validateJWT to m) = Ok (REDIRECT "/dashboard")) /\
  (forall to m,
      path to = "/" ->
      fst (AuthMiddleware_beforeEach validateJWT to m) = Ok ALLOW) /\
  (forall to m,
      lookup (path to) routeConfig = None ->
      routeTypeOf (path to) = PUBLIC /\
      fst (AuthMiddleware_beforeEach validateJWT to m) = Ok ALLOW).
Proof.
  split; [|split].
  - intros to m P V F. rewrite beforeEach_unfold.
    destruct (checkAuthentication_spec m) as (_ & _ & _ & _ & _ & _ & _ & T).
    specialize (T V F).
    destruct (checkAuthentication validateJWT m) as [r m1]. simpl in T. subst r.
    rewrite P. reflexivity.
  - intros to m P. apply open_route_allowed; rewrite P; reflexivity.
  - intros to m P.
    assert (T : routeTypeOf (path to) = PUBLIC).
    { unfold routeTypeOf. rewrite P. reflexivity. }
    split; [exact T|].
    apply open_route_allowed;
      unfold requiresAuthentication, isAuthenticationRoute;
      rewrite T; reflexivity.
Qed.

(** C8. [checkRouteAccess] throws the access-denied error exactly when the
    policy of the path is [PROTECTED] and the store has no valid token;
    otherwise it returns true.  A path with another policy, or none, needs
    no call to the store; for a protected one the fetch is taken to
    succeed. *)
Theorem checkRouteAccess_denied_iff (p : string) (m : Machine) :
  (routeTypeOf p <> PROTECTED -> checkRouteAccess validateJWT p m = (Ok true, m)) /\
  (faultAt (world m) (calls (world m)) = false ->
   (fst (checkRouteAccess validateJWT p m) = Throw AccessDenied <->
    routeTypeOf p = PROTECTED /\ valid_token_available validateJWT (world m) = false) /\
   (fst (checkRouteAccess validateJWT p m) <> Throw AccessDenied ->
    fst (checkRouteAccess validateJWT p m) = Ok true)).
Proof.
  pose proof (isProtected_routeTypeOf p) as IP.
  unfold checkRouteAccess, valid_token_available.
  destruct (isProtected p).
  - assert (P : routeTypeOf p = PROTECTED) by (apply IP; reflexivity).
    split; [intros H; contradiction|].
    destruct m as [s [t0 ua ts lg tmr nid fa cl]]. simpl. intros F.
    run. rewrite F. simpl.
    repeat (branch; simpl); repeat split; intros;
      try discriminate; try tauto; try congruence;
      match goal with
      | H : _ /\ true = false |- _ => destruct H; discriminate
      end.
  - assert (P : routeTypeOf p <> PROTECTED).
    { intros H. apply IP in H. discriminate H. }
    unfold ret. simpl. repeat split; intros; try tauto; try discriminate.
Qed.


(** *** All or nothing *)




(** When the log write of [initSession] fails, the call throws after the
    token, the flag and the start time are written and before the
    inactivity deadline is set. *)
Lemma initSession_log_failure (m : Machine) :
  valid_token_available validateJWT (world m) = true ->
  faultAt (world m) (calls (world m)) = false ->
  faultAt (world m) (S (calls (world m))) = true ->
  let m' := snd (initSession validateJWT m) in
  fst (initSession validateJWT m) = Throw StoreError /\
  isAuthenticated (session m') = true /\
  sessionStart (session m') = Some (now (world m)) /\
  inactivityTimer (session m') = inactivityTimer (session m) /\
  timers (world m') = timers (world m).
Proof.
  intros V F0 F1.
  destruct (valid_token_available_inv _ V) as (t & exp & St & E & T & J).
  destruct m as [[a u st n tm tk] [t0 ua ts lg tmr nid fa cl]].
  simpl in *. subst ts. run.
  rewrite F0. simpl. rewrite E. simpl. rewrite T, J. simpl.
  rewrite F1. simpl. repeat split.
Qed.




(** ** Further properties of the session manager *)

Ltac run_more :=
  repeat (progress (unfold formatSessionDuration, sessionInfo, timeoutFires,
                      beforeRouteEnter, beforeRouteUpdate, withAuth,
                      useNavigationGuard_beforeEach in *; unfold_js));
  simpl in *.

Ltac branch_timer :=
  match goal with
  | |- context [Pos.eqb ?a ?a] => rewrite (Pos.eqb_refl a)
  | |- context [Pos.eqb ?a ?b] =>
      let P := fresh "P" in destruct (Pos.eqb a b) eqn:P
  | |- context [Z.leb ?a ?b] =>
      let L := fresh "L" in destruct (Z.leb a b) eqn:L
  end.

Ltac deadline_cases :=
  repeat (first [branch; run_more | branch_timer; simpl]).

Ltac single :=
  unfold one_deadline;
  first [left; reflexivity
        | right; do 2 eexists; split; reflexivity].

(** The delays that the timer of the page takes as they are: those of a
    timeout between 0 and 2147483 seconds. *)
Lemma delay_fits (n : Z) :
  0 <= n <= 2147483 -> 0 <= n * 1000 <= 2147483647.
Proof. lia. Qed.

(** X2. [resetInactivityTimer] does nothing to a session that is not
    authenticated.  On an authenticated one, under a timeout of at most
    2147483 seconds, so that the delay fits the timer of the page, it
    returns, makes no call to the store, and leaves exactly one pending
    deadline: a fresh timeout, one [sessionTimeout] from now, held by the
    session; the deadline that was pending before is gone. *)
Theorem resetInactivityTimer_moves_deadline (m : Machine) :
  (isAuthenticated (session m) = false ->
   resetInactivityTimer m = (Ok tt, m)) /\
  (isAuthenticated (session m) = true ->
   one_deadline m ->
   0 <= sessionTimeout (session m) <= 2147483 ->
   let m' := snd (resetInactivityTimer m) in
   let delay := sessionTimeout (session m) * 1000 in
   fst (resetInactivityTimer m) = Ok tt /\
   session m' = set_inactivityTimer (Some (nextTimer (world m))) (session m) /\
   timers (world m') = [(nextTimer (world m), now (world m) + delay)] /\
   0 <= delay <= 2147483647 /\
   tokenStore (world m') = tokenStore (world m) /\
   eventLog (world m') = eventLog (world m) /\
   calls (world m') = calls (world m)).
Proof.
  destruct m as [[a u st n tm tk] [t0 ua ts lg tmr nid fa cl]].
  unfold one_deadline.
  cbn [session world isAuthenticated inactivityTimer timers sessionTimeout].
  split.
  - intros ->. reflexivity.
  - intros -> H B. pose proof (delay_fits n B) as D.
    destruct H as [H | (i & d & T & L)]; subst;
      run_more; deadline_cases; repeat split; try exact (proj1 D);
      try exact (proj2 D).
Qed.

(** X3. [updateSessionTimeout] puts the new window in force at once.  The
    timeout is the new one on every path.  For a window of at most 2147483
    seconds, so that the delay fits the timer of the page, an
    authenticated session gets one pending deadline, the new window from
    now, in place of the old one; for a session that is not authenticated
    no timeout is set and the pending ones stay as they are. *)
Theorem updateSessionTimeout_restarts (n : Z) (m : Machine) :
  one_deadline m ->
  0 <= n <= 2147483 ->
  let m' := snd (updateSessionTimeout n m) in
  fst (updateSessionTimeout n m) = Ok tt /\
  sessionTimeout (session m') = n /\
  timers (world m') =
    (if isAuthenticated (session m)
     then [(nextTimer (world m), now (world m) + n * 1000)]
     else timers (world m)) /\
  0 <= n * 1000 <= 2147483647 /\
  isAuthenticated (session m') = isAuthenticated (session m) /\
  sessionToken (session m') = sessionToken (session m) /\
  tokenStore (world m') = tokenStore (world m) /\
  eventLog (world m') = eventLog (world m).
Proof.
  destruct m as [[a u st n0 tm tk] [t0 ua ts lg tmr nid fa cl]].
  unfold one_deadline.
  cbn [session world isAuthenticated inactivityTimer timers sessionTimeout].
  intros H B. pose proof (delay_fits n B) as D.
  destruct H as [H | (i & d & T & L)]; subst;
    run_more; deadline_cases; repeat split; try exact (proj1 D);
    try exact (proj2 D).
Qed.

(** X4. The inactivity timeout.  A timeout that is not pending, or whose
    deadline lies ahead, does not run: the state stays as it is.  When the
    deadline the session holds has passed and the log write succeeds, the
    firing signs the session out, leaves no deadline pending and appends one
    [SESSION_END] entry whose reason is [inactivity_timeout]. *)
Theorem timeoutFires_ends_session (i : positive) (d : Z) (m : Machine) :
  isAuthenticated (session m) = true ->
  inactivityTimer (session m) = Some i ->
  timers (world m) = [(i, d)] ->
  (forall j, j <> i -> timeoutFires j m = (Ok tt, m)) /\
  (now (world m) < d -> timeoutFires i m = (Ok tt, m)) /\
  (d <= now (world m) ->
   faultAt (world m) (calls (world m)) = false ->
   let m' := snd (timeoutFires i m) in
   signed_out m' = true /\
   timers (world m') = [] /\
   exists who secs,
     eventLog (world m') =
       (eventLog (world m) ++
        [mkEvent SESSION_END who
                 [("reason", VStr "inactivity_timeout");
                  ("duration", VNum secs)]
                 (now (world m))])%list).
Proof.
  destruct m as [[a u st n tm tk] [t0 ua ts lg tmr nid fa cl]].
  simpl. intros -> -> ->. split; [|split].
  - intros j Hj. unfold timeoutFires. run_more.
    destruct (Pos.eqb_spec i j) as [E|_]; [congruence|reflexivity].
  - intros H. unfold timeoutFires. run_more.
    rewrite Pos.eqb_refl. simpl.
    destruct (Z.leb_spec d t0) as [L|_]; [lia|reflexivity].
  - intros H F. unfold signed_out. run_more.
    rewrite Pos.eqb_refl. simpl.
    destruct (Z.leb_spec d t0) as [_|L]; [|lia]. simpl.
    repeat (first [progress (rewrite ?F; simpl) | branch; run_more
                  | branch_timer; simpl]);
      repeat split; eauto.
Qed.

(** X5. A deadline that a reset has replaced never runs: after
    [resetInactivityTimer] on an authenticated session, the firing of the
    timeout that was pending before leaves the state as it is, however late
    it comes. *)
Theorem replaced_deadline_never_fires (i : positive) (d : Z) (m : Machine)
    (w : World) :
  isAuthenticated (session m) = true ->
  inactivityTimer (session m) = Some i ->
  timers (world m) = [(i, d)] ->
  (i < nextTimer (world m))%positive ->
  let m1 := snd (resetInactivityTimer m) in
  timers w = timers (world m1) ->
  timeoutFires i (mkMachine (session m1) w) = (Ok tt, mkMachine (session m1) w).
Proof.
  destruct m as [[a u st n tm tk] [t0 ua ts lg tmr nid fa cl]].
  destruct w as [t1 ua1 ts1 lg1 tmr1 nid1 fa1 cl1].
  simpl. intros -> -> -> Lt. run_more. rewrite Pos.eqb_refl. simpl.
  intros ->. simpl.
  destruct (Pos.eqb_spec nid i) as [E|_]; [subst; lia|reflexivity].
Qed.

(** X6. The periodic validation.  It makes no call and changes nothing when
    the session is not authenticated or the codec still accepts its token.
    When the codec rejects the token of an authenticated session and the
    log write succeeds, the session is signed out and one [SESSION_END]
    entry with the reason [token_expired] is appended. *)
Theorem sessionValidation_expires (m : Machine) :
  (isAuthenticated (session m) = false ->
   sessionValidation validateJWT m = (Ok tt, m)) /\
  (forall t,
      sessionToken (session m) = Some t ->
      validateJWT (now (world m)) t = true ->
      sessionValidation validateJWT m = (Ok tt, m)) /\
  (forall t,
      isAuthenticated (session m) = true ->
      sessionToken (session m) = Some t ->
      truthy t = true ->
      validateJWT (now (world m)) t = false ->
      faultAt (world m) (calls (world m)) = false ->
      let m' := snd (sessionValidation validateJWT m) in
      signed_out m' = true /\
      exists who secs,
        eventLog (world m') =
          (eventLog (world m) ++
           [mkEvent SESSION_END who
                    [("reason", VStr "token_expired");
                     ("duration", VNum secs)]
                    (now (world m))])%list).
Proof.
  destruct m as [[a u st n tm tk] [t0 ua ts lg tmr nid fa cl]].
  simpl. split; [|split].
  - intros ->. unfold sessionValidation. run_more.
    destruct tk; reflexivity.
  - intros t -> V. unfold sessionValidation. run_more. rewrite V.
    destruct a, (truthy t); reflexivity.
  - intros t -> -> T V F. unfold signed_out. run_more.
    rewrite T, V. simpl.
    repeat (first [progress (rewrite ?F; simpl) | branch; run_more
                  | branch_timer; simpl]);
      repeat split; eauto.
Qed.


(** X7. [formatSessionDuration] reads the clock and changes nothing.  For a
    session started at or before now, the hours, minutes and seconds it
    prints add up to the whole seconds elapsed, minutes and seconds stay
    below sixty, and the units that lead with zero are left out.  Without a
    start time it prints [0s]. *)
Theorem formatSessionDuration_units (m : Machine) :
  (sessionStart (session m) = None ->
   formatSessionDuration m = (Ok "0s", m)) /\
  (forall start,
      sessionStart (session m) = Some start ->
      start <= now (world m) ->
      exists h mi s,
        (now (world m) - start) / 1000 = 3600 * h + 60 * mi + s /\
        0 <= h /\ 0 <= mi < 60 /\ 0 <= s < 60 /\
        formatSessionDuration m =
          (Ok (if 0 <? h then
                 showNumber h ++ "h " ++ showNumber mi ++ "m " ++
                 showNumber s ++ "s"
               else if 0 <? mi then
                 showNumber mi ++ "m " ++ showNumber s ++ "s"
               else showNumber s ++ "s"), m)).
Proof.
  destruct m as [[a u st n tm tk] w].
  cbn [session world sessionStart now]. split.
  - intros ->. reflexivity.
  - intros start -> H.
    set (d := (now w - start) / 1000).
    assert (D : 0 <= d) by (apply Z.div_pos; lia).
    exists (d / 3600), (Z.rem d 3600 / 60), (Z.rem d 60).
    rewrite !Z.rem_mod_nonneg by lia.
    pose proof (Z.mod_pos_bound d 3600 eq_refl) as B1.
    pose proof (Z.mod_pos_bound d 60 eq_refl) as B2.
    pose proof (Z.div_mod d 3600 ltac:(lia)) as E1.
    pose proof (Z.div_mod (d mod 3600) 60 ltac:(lia)) as E2.
    assert (E3 : d mod 60 = (d mod 3600) mod 60).
    { symmetry. apply Z.mod_mod_divide. exists 60. reflexivity. }
    pose proof (Z.mod_pos_bound (d mod 3600) 60 eq_refl) as B3.
    assert (Q : 0 <= d mod 3600 / 60 < 60).
    { split; [apply Z.div_pos; lia|apply Z.div_lt_upper_bound; lia]. }
    split; [lia|].
    split; [apply Z.div_pos; lia|].
    split; [exact Q|]. split; [lia|].
    unfold formatSessionDuration, getSessionDuration, bind, gets, asks, ret.
    cbn [session world sessionStart now]. fold d.
    rewrite !Z.rem_mod_nonneg by lia.
    destruct (0 <? d / 3600); [reflexivity|].
    destruct (0 <? d mod 3600 / 60); reflexivity.
Qed.

(** X8. [getSessionDuration] counts whole seconds, rounding down: the
    elapsed milliseconds lie between a thousand times the result and a
    thousand more.  It is 0 without a start time, and it changes nothing. *)
Theorem getSessionDuration_floor (m : Machine) :
  snd (getSessionDuration m) = m /\
  (sessionStart (session m) = None -> fst (getSessionDuration m) = Ok 0) /\
  (forall start,
      sessionStart (session m) = Some start ->
      exists d,
        fst (getSessionDuration m) = Ok d /\
        1000 * d <= now (world m) - start < 1000 * d + 1000).
Proof.
  destruct m as [[a u st n tm tk] w].
  unfold getSessionDuration, bind, gets, asks, ret.
  cbn [session world sessionStart now].
  split; [destruct st; reflexivity|].
  split; [intros ->; reflexivity|].
  intros start ->. exists ((now w - start) / 1000). split; [reflexivity|].
  pose proof (Z.div_mod (now w - start) 1000 ltac:(lia)).
  pose proof (Z.mod_pos_bound (now w - start) 1000 eq_refl). lia.
Qed.

(** X9. When the store has no valid token, [initSession] fails closed: it
    does not return true, and it leaves the session, the event log and the
    pending deadlines as they were, whether the fetch succeeds or fails. *)
Theorem initSession_fails_closed (m : Machine) :
  valid_token_available validateJWT (world m) = false ->
  let r := initSession validateJWT m in
  (fst r = Ok false \/ fst r = Throw StoreError) /\
  session (snd r) = session m /\
  eventLog (world (snd r)) = eventLog (world m) /\
  timers (world (snd r)) = timers (world m).
Proof.
  destruct m as [s [t0 ua ts lg tmr nid fa cl]].
  unfold valid_token_available. simpl. intros V. run.
  destruct (fa cl); simpl; [repeat split; auto|].
  destruct ts as [[t exp]|]; simpl in *; [|repeat split; auto].
  destruct (expired t0 (t, exp)); simpl in *; [repeat split; auto|].
  destruct (truthy t); simpl in *; [|repeat split; auto].
  rewrite V. simpl. repeat split; auto.
Qed.

Lemma substring_prefix_length (n : nat) (s : string) :
  String.length (substring 0 n s) = Nat.min n (String.length s).
Proof.
  revert s. induction n as [|n IH]; intros [|c s]; simpl; auto.
Qed.

Lemma length_append (a b : string) :
  String.length (a ++ b) = (String.length a + String.length b)%nat.
Proof.
  induction a as [|c a IH]; simpl; [reflexivity|rewrite IH; reflexivity].
Qed.

Lemma excerpt_length (t : string) :
  String.length (substring 0 10 t ++ "...") =
  (Nat.min 10 (String.length t) + 3)%nat.
Proof.
  rewrite length_append, substring_prefix_length. reflexivity.
Qed.

Lemma excerpt_differs (t : string) :
  (13 < String.length t)%nat -> substring 0 10 t ++ "..." <> t.
Proof.
  intros G E. pose proof (excerpt_length t) as L. rewrite E in L. lia.
Qed.

(** X10. What [initSession] writes of the token into the log.  On a
    successful resume the [SESSION_START] entry carries the first ten
    characters of the token followed by three dots: at most thirteen
    characters, so a token longer than that is never logged whole. *)
Theorem initSession_logs_excerpt (m : Machine) (t : string) (exp : Z) :
  tokenStore (world m) = Some (t, exp) ->
  fst (initSession validateJWT m) = Ok true ->
  exists excerpt,
    eventLog (world (snd (initSession validateJWT m))) =
      (eventLog (world m) ++
       [mkEvent SESSION_START "system" [("token", VStr excerpt)]
                (now (world m))])%list /\
    excerpt = substring 0 10 t ++ "..." /\
    String.length excerpt = (Nat.min 10 (String.length t) + 3)%nat /\
    ((13 < String.length t)%nat -> excerpt <> t).
Proof.
  destruct m as [[a u st n tm tk] [t0 ua ts lg tmr nid fa cl]].
  cbn [world tokenStore]. intros -> R0.
  exists (substring 0 10 t ++ "...").
  split; [|split; [reflexivity|split;
                   [apply excerpt_length|apply excerpt_differs]]].
  revert R0. run. repeat (branch; simpl); intros R; try discriminate R;
    reflexivity.
Qed.


(** ** Calls that overlap *)

Ltac unfold_async :=
  unfold uninterrupted, after, begin, suspend, timeoutRuns,
    sessionValidation_async, endSession_async, endSession_clear,
    initSession_async, startSession_async, await in *.

Ltac open_machines :=
  repeat match goal with
         | x : Machine |- _ =>
             destruct x as [[? ? ? ? ? ?] [? ? ? ? ? ? ? ?]]
         end.

(** Run to its end with nothing in between, a call of the overlapping
    model leaves the state that the call leaves in the model where calls
    do not overlap. *)
Lemma uninterrupted_is_after (c : Call) (m : Machine) :
  uninterrupted (begin generateJWT validateJWT c) m =
  after generateJWT validateJWT c m.
Proof.
  destruct m as [[a u st n tm tk] [t0 ua ts lg tmr nid fa cl]].
  destruct c; unfold_async; run_more;
    repeat (first [branch; run_more | branch_timer; simpl]);
    try congruence; reflexivity.
Qed.

Section SafeTasks.

Variable Inv : Machine -> Prop.

Hypothesis begin_safe :
  forall c m,
    Inv m ->
    Inv (snd (begin generateJWT validateJWT c m)) /\
    forall s,
      fst (begin generateJWT validateJWT c m) = Ok s -> safe Inv (projT2 s).

Hypothesis timeout_safe : forall i, safe_start Inv (timeoutRuns i).

Hypothesis world_safe :
  forall w pg, Inv (machine pg) -> Inv (machine (worldChanges w pg)).

Lemma safe_firstn (k : nat) (l : list Suspended) :
  Forall (fun s => safe Inv (projT2 s)) l ->
  Forall (fun s => safe Inv (projT2 s)) (firstn k l).
Proof.
  intros F. revert k. induction F as [|s l S F IH]; intros [|k]; simpl;
    constructor; auto.
Qed.

Lemma safe_skipn (k : nat) (l : list Suspended) :
  Forall (fun s => safe Inv (projT2 s)) l ->
  Forall (fun s => safe Inv (projT2 s)) (skipn k l).
Proof.
  intros F. revert k. induction F as [|s l S F IH]; intros [|k]; simpl;
    try constructor; auto.
Qed.

(** A move keeps [Inv], and leaves suspended only calls every turn of which
    keeps it. *)
Lemma move_safe (mv : Move) (pg : Page) :
  Inv (machine pg) ->
  Forall (fun s => safe Inv (projT2 s)) (suspended pg) ->
  Inv (machine (move generateJWT validateJWT mv pg)) /\
  Forall (fun s => safe Inv (projT2 s))
         (suspended (move generateJWT validateJWT mv pg)).
Proof.
  intros I F. destruct mv as [c|i|k|w]; simpl.
  - unfold enter. destruct (begin_safe c _ I) as [I1 S1].
    destruct (begin generateJWT validateJWT c (machine pg)) as [[s|e] m'];
      simpl in *; split; auto.
    apply Forall_app. split; [exact F|].
    constructor; [apply S1; reflexivity | constructor].
  - unfold enter, suspend, bind, ret.
    destruct (timeout_safe i _ I) as [I1 S1].
    destruct (timeoutRuns i (machine pg)) as [[t|e] m'];
      simpl in *; split; auto.
    apply Forall_app. split; [exact F|].
    constructor; [apply S1; reflexivity | constructor].
  - unfold goesOn.
    destruct (nth_error (suspended pg) k) as [[A [a|rest]]|] eqn:N;
      simpl; [| |split; assumption].
    + split; [exact I|].
      apply Forall_app. split; [apply safe_firstn | apply (safe_skipn (S k))]; exact F.
    + assert (SA : safe Inv (Await rest)).
      { apply nth_error_In in N.
        exact (proj1 (Forall_forall _ _) F _ N). }
      inversion SA as [|rest' K1 K2 R]. subst rest'.
      specialize (K1 _ I). specialize (K2 (machine pg)).
      destruct (rest (machine pg)) as [[t'|e] m']; simpl in *.
      * split; [exact K1|].
        apply Forall_app. split; [apply safe_firstn; exact F|].
        constructor; [exact (K2 _ I eq_refl) | apply (safe_skipn (S k)); exact F].
      * split; [exact K1|].
        apply Forall_app.
        split; [apply safe_firstn | apply (safe_skipn (S k))]; exact F.
  - split; [apply world_safe; exact I | exact F].
Qed.

Lemma play_safe (moves : list Move) :
  forall pg,
    Inv (machine pg) ->
    Forall (fun s => safe Inv (projT2 s)) (suspended pg) ->
    Inv (machine (play generateJWT validateJWT moves pg)).
Proof.
  unfold play. induction moves as [|mv moves IH]; intros pg I F; simpl.
  - exact I.
  - destruct (move_safe mv pg I F) as [I1 F1]. apply IH; assumption.
Qed.

End SafeTasks.

Ltac forget_turn :=
  repeat match goal with
         | H : _ |- _ => clear H
         end.

(** One turn after the other of a call: the state is opened, the turn is
    run case by case, [inv] shows the invariant after it, and the turns
    that follow are treated in the same way. *)
Ltac branch_pending :=
  match goal with
  | |- context [existsb ?f ?l] =>
      let P := fresh "P" in destruct (existsb f l) eqn:P
  end.

Ltac crank pre inv :=
  open_machines; pre; simpl in *;
  repeat (first [branch; run_more | branch_timer; simpl
                | branch_pending; simpl]);
  lazymatch goal with
  | |- _ /\ _ => split; crank pre inv
  | |- forall _ : Task _, _ => intro; crank pre inv
  | |- forall _ : Suspended, _ => intro; crank pre inv
  | |- Ok _ = Ok _ -> _ =>
      let E := fresh "E" in
      intros E; inversion E; subst; simpl; crank pre inv
  | |- Throw _ = Ok _ -> _ =>
      let E := fresh "E" in intros E; discriminate E
  | |- safe _ (Done _) => apply safe_Done
  | |- safe _ (Await _) =>
      forget_turn;
      apply safe_Await; [intros ? ? | intros ? ? ?]; crank pre inv
  | |- _ => inv
  end.

Ltac invariants :=
  unfold session_invariants, session_start_invariant, session_invariant in *;
  simpl in *;
  intuition (try discriminate; try congruence).

Ltac no_pre := idtac.

Lemma begin_keeps_invariants (c : Call) (m : Machine) :
  session_invariants m ->
  session_invariants (snd (begin generateJWT validateJWT c m)) /\
  forall s,
    fst (begin generateJWT validateJWT c m) = Ok s ->
    safe session_invariants (projT2 s).
Proof.
  intros I. destruct c; unfold_async; run_more; crank no_pre invariants.
Qed.

Lemma timeout_keeps_invariants (i : positive) :
  safe_start session_invariants (timeoutRuns i).
Proof.
  intros m I. unfold_async; run_more; crank no_pre invariants.
Qed.

Ltac open_deadline :=
  repeat match goal with
         | H : one_deadline _ |- _ =>
             let H1 := fresh "H" in
             let H2 := fresh "H" in
             unfold one_deadline in H; simpl in H;
             destruct H as [H | (? & ? & H1 & H2)]; subst
         end.

Lemma begin_keeps_one_deadline (c : Call) (m : Machine) :
  one_deadline m ->
  one_deadline (snd (begin generateJWT validateJWT c m)) /\
  forall s,
    fst (begin generateJWT validateJWT c m) = Ok s ->
    safe one_deadline (projT2 s).
Proof.
  intros I. destruct c; unfold_async; run_more; crank open_deadline single.
Qed.

Lemma timeout_keeps_one_deadline (i : positive) :
  safe_start one_deadline (timeoutRuns i).
Proof.
  intros m I. unfold_async; run_more; crank open_deadline single.
Qed.

(** X1. However the calls of the session manager overlap, at most one
    inactivity deadline is pending on the page, and it is the one the
    session holds.  From a page with no pending timeout on which nothing has
    been called yet, after any sequence of calls made, suspended calls
    going on one [await] at a time in any order, timeouts running and
    changes of the world (the clock, the store, which calls fail), either
    no timeout is pending or exactly one is, under the id kept in
    [inactivityTimer]. *)
Theorem overlapping_calls_keep_one_deadline (moves : list Move) (w : World) :
  timers w = [] ->
  one_deadline
    (machine (play generateJWT validateJWT moves (freshPage w))).
Proof.
  intros T. apply play_safe.
  - exact begin_keeps_one_deadline.
  - exact timeout_keeps_one_deadline.
  - intros w' pg I. exact I.
  - left. exact T.
  - constructor.
Qed.

(** X11. However the calls of the session manager overlap, the session
    is authenticated exactly when it holds a token and exactly when it has
    a start time, and it has a user only when it is authenticated.  This
    holds on the page after any sequence of calls made, suspended calls
    going on one [await] at a time in any order, timeouts running and
    changes of the world, whichever calls to the store fail; and what
    [sessionInfo] shows there of a session that is not authenticated is
    empty: no user, no start time, a duration of 0 printed as [0s]. *)
Theorem overlapping_calls_keep_session_invariants
    (moves : list Move) (w : World) :
  let m := machine (play generateJWT validateJWT moves (freshPage w)) in
  session_invariant (session m) /\
  session_start_invariant (session m) /\
  (isAuthenticated (session m) = false ->
   sessionInfo m =
     (Ok (mkSessionInfo false None None 0 "0s" (sessionTimeout (session m))),
      m)).
Proof.
  intros m.
  assert (I : session_invariants m).
  { apply play_safe.
    - exact begin_keeps_invariants.
    - exact timeout_keeps_invariants.
    - intros w' pg I. exact I.
    - invariants.
    - constructor. }
  destruct I as [I1 I2]. split; [exact I1|]. split; [exact I2|].
  clearbody m. destruct m as [[a u st n tm tk] w']. simpl. intros ->.
  assert (U : u = None).
  { destruct u; [|reflexivity]. invariants. }
  assert (S : st = None).
  { destruct st; [|reflexivity]. invariants. }
  subst. reflexivity.
Qed.



Lemma startSession_clock (u : User) (cred : string) (m : Machine) :
  now (world (snd (startSession generateJWT u cred m))) = now (world m).
Proof.
  destruct m as [[a uu st n tm tk] [t0 ua ts lg tmr nid fa cl]].
  run. repeat (branch; simpl); reflexivity.
Qed.

(** X12. After a [startSession] in which no call fails, [sessionInfo] shows
    an authenticated session with the user that was passed in, started now,
    with a duration of 0 printed as [0s], under the timeout in force. *)
Theorem sessionInfo_after_startSession (u : User) (cred : string)
    (m : Machine) :
  (forall k, faultAt (world m) k = false) ->
  fst (sessionInfo (snd (startSession generateJWT u cred m))) =
    Ok (mkSessionInfo true (Some u) (Some (now (world m))) 0 "0s"
                      (sessionTimeout (session m))).
Proof.
  intros H.
  destruct (startSession_runs u cred m H) as (_ & S & _).
  pose proof (startSession_clock u cred m) as N.
  destruct (snd (startSession generateJWT u cred m)) as [s' w'].
  simpl in S, N. subst s'.
  unfold sessionInfo, formatSessionDuration, getSessionDuration,
    bind, gets, asks, ret.
  cbn [session world isAuthenticated sessionUser sessionStart sessionTimeout
       fst snd].
  rewrite N, Z.sub_diag. reflexivity.
Qed.

(** X13. The hook of [useRouteGuard] lets a navigation to a route that
    requires authentication through only with the session authenticated
    when it returns; its only redirect is to ["/auth"]; and for a route
    that does not require authentication it allows without reading the
    store or touching the session. *)
Theorem useRouteGuard_allows_only_authenticated (to : Route) (m : Machine) :
  (existsb (fun r => r) (matched to) = false ->
   useRouteGuard_beforeEach validateJWT to m = (Ok ALLOW, m)) /\
  (existsb (fun r => r) (matched to) = true ->
   fst (useRouteGuard_beforeEach validateJWT to m) = Ok ALLOW ->
   isAuthenticated
     (session (snd (useRouteGuard_beforeEach validateJWT to m))) = true) /\
  (forall target,
      fst (useRouteGuard_beforeEach validateJWT to m) = Ok (REDIRECT target) ->
      target = "/auth").
Proof.
  destruct m as [[a u st n tm tk] [t0 ua ts lg tmr nid fa cl]].
  split; [|split].
  - intros P. unfold useRouteGuard_beforeEach, bind, gets, ret.
    simpl. rewrite P. reflexivity.
  - intros P. unfold useRouteGuard_beforeEach. run. rewrite P. simpl.
    repeat (branch; simpl); intros R; try discriminate R; reflexivity.
  - intros target. unfold useRouteGuard_beforeEach. run.
    destruct (existsb (fun r => r) (matched to)); simpl;
      repeat (branch; simpl); intros R; inversion R; reflexivity.
Qed.

(** X14. The middleware never touches the session.  When it allows a
    navigation to a protected path, the store held a valid token; and it
    throws only while refusing a protected path, when the write of the
    [UNAUTHORIZED_ACCESS] entry fails. *)
Theorem AuthMiddleware_allows_only_with_token (to : Route) (m : Machine) :
  session (snd (AuthMiddleware_beforeEach validateJWT to m)) = session m /\
  (requiresAuthentication (path to) = true ->
   fst (AuthMiddleware_beforeEach validateJWT to m) = Ok ALLOW ->
   valid_token_available validateJWT (world m) = true) /\
  (forall e,
      fst (AuthMiddleware_beforeEach validateJWT to m) = Throw e ->
      e = StoreError /\
      requiresAuthentication (path to) = true /\
      fst (checkAuthentication validateJWT m) = Ok false).
Proof.
  rewrite beforeEach_unfold.
  destruct (checkAuthentication_spec m) as (B & S & _ & _ & _ & _ & T & _).
  destruct (checkAuthentication validateJWT m) as [r m1]. simpl in *.
  destruct B as [-> | ->]; simpl.
  - rewrite andb_false_r, andb_true_r.
    split; [|split].
    + destruct (isAuthenticationRoute (path to)); simpl; [exact S|].
      destruct (logRouteAccess_spec (path to) true m1) as (_ & L & _).
      rewrite L. exact S.
    + intros _ _. apply T. reflexivity.
    + intros e.
      destruct (isAuthenticationRoute (path to)); simpl; discriminate.
  - rewrite andb_true_r, andb_false_r.
    destruct (requiresAuthentication (path to)); simpl.
    + destruct (faultAt (world m1) (calls (world m1))); simpl;
        (split; [exact S|split]); intros; try discriminate.
      inversion H. repeat split.
    + split; [|split]; intros; try discriminate.
      destruct (logRouteAccess_spec (path to) false m1) as (_ & L & _).
      rewrite L. exact S.
Qed.


(** ** Further properties of the route guards *)

Lemma isProtected_requiresAuthentication (p : string) :
  isProtected p = requiresAuthentication p.
Proof.
  unfold isProtected, requiresAuthentication, routeTypeOf.
  destruct (lookup p routeConfig) as [[| |]|]; reflexivity.
Qed.

(** X15. The policy table is matched on the exact path: the paths that
    require authentication are ["/dashboard"], ["/security"] and
    ["/profile"] and no other, the only authentication route is ["/auth"],
    and the test without the default, which [checkRouteAccess] and the mixin
    use, agrees with the test of the middleware on every path. *)
Theorem protected_paths (p : string) :
  (requiresAuthentication p = true <->
   p = "/dashboard" \/ p = "/security" \/ p = "/profile") /\
  (isAuthenticationRoute p = true <-> p = "/auth") /\
  isProtected p = requiresAuthentication p.
Proof.
  unfold requiresAuthentication, isAuthenticationRoute, isProtected,
    routeTypeOf, routeConfig, lookup.
  destruct (String.eqb_spec "/" p) as [<-|N0];
    [repeat split; intros; try discriminate;
     repeat match goal with H : _ \/ _ |- _ => destruct H end;
     discriminate|].
  destruct (String.eqb_spec "/auth" p) as [<-|N1];
    [repeat split; intros; try discriminate;
     repeat match goal with H : _ \/ _ |- _ => destruct H end;
     discriminate|].
  destruct (String.eqb_spec "/dashboard" p) as [<-|N2];
    [repeat split; intros; try discriminate; auto|].
  destruct (String.eqb_spec "/security" p) as [<-|N3];
    [repeat split; intros; try discriminate; auto|].
  destruct (String.eqb_spec "/profile" p) as [<-|N4];
    [repeat split; intros; try discriminate; auto|].
  simpl. repeat split; intros; try discriminate;
    repeat match goal with H : _ \/ _ |- _ => destruct H end;
    congruence.
Qed.

(** What [checkRouteAccess] does on a protected path, by the outcome of
    the fetch. *)
Lemma checkRouteAccess_protected (p : string) (m : Machine) :
  routeTypeOf p = PROTECTED ->
  let m1 := mkMachine (session m) (count_call (world m)) in
  (faultAt (world m) (calls (world m)) = true ->
   checkRouteAccess validateJWT p m = (Throw StoreError, m1)) /\
  (faultAt (world m) (calls (world m)) = false ->
   valid_token_available validateJWT (world m) = true ->
   checkRouteAccess validateJWT p m = (Ok true, m1)) /\
  (faultAt (world m) (calls (world m)) = false ->
   valid_token_available validateJWT (world m) = false ->
   fst (checkRouteAccess validateJWT p m) = Throw AccessDenied).
Proof.
  intros P. apply isProtected_routeTypeOf in P.
  unfold checkRouteAccess, valid_token_available. rewrite P.
  destruct m as [s [t0 ua ts lg tmr nid fa cl]]. simpl.
  run. repeat split; intros F; rewrite F; simpl; try reflexivity;
    repeat (branch; simpl); intros; try discriminate; reflexivity.
Qed.

Lemma checkRouteAccess_open (p : string) (m : Machine) :
  routeTypeOf p <> PROTECTED ->
  checkRouteAccess validateJWT p m = (Ok true, m).
Proof.
  intros P. unfold checkRouteAccess.
  destruct (isProtected p) eqn:E; [|reflexivity].
  apply isProtected_routeTypeOf in E. contradiction.
Qed.

(** X16. The hook of [useNavigationGuard] never throws and fails closed:
    its decision is [ALLOW] or [REDIRECT "/auth"], and it is [ALLOW] exactly
    when the path is not protected, or the fetch from the store succeeds
    and yields a valid token.  A failure of the store on a protected path
    is a redirect. *)
Theorem useNavigationGuard_fails_closed (to : Route) (m : Machine) :
  let r := fst (useNavigationGuard_beforeEach validateJWT to m) in
  (r = Ok ALLOW \/ r = Ok (REDIRECT "/auth")) /\
  (r = Ok ALLOW <->
   routeTypeOf (path to) <> PROTECTED \/
   (faultAt (world m) (calls (world m)) = false /\
    valid_token_available validateJWT (world m) = true)).
Proof.
  unfold useNavigationGuard_beforeEach, try_catch, bind, ret.
  destruct (RouteType_eqb (routeTypeOf (path to)) PROTECTED) eqn:E.
  - assert (P : routeTypeOf (path to) = PROTECTED)
      by (destruct (routeTypeOf (path to)); try discriminate; reflexivity).
    destruct (checkRouteAccess_protected (path to) m P) as (A & B & C).
    destruct (faultAt (world m) (calls (world m))) eqn:F.
    + rewrite (A eq_refl). simpl. split; [right; reflexivity|].
      split; [discriminate|]. intros [N | [X _]]; [contradiction|discriminate].
    + destruct (valid_token_available validateJWT (world m)) eqn:V.
      * rewrite (B eq_refl eq_refl). simpl. split; [left; reflexivity|].
        split; [intros _; right; split; reflexivity|reflexivity].
      * specialize (C eq_refl eq_refl).
        destruct (checkRouteAccess validateJWT (path to) m) as [r m1].
        simpl in C. subst r. simpl. split; [right; reflexivity|].
        split; [discriminate|].
        intros [N | [_ X]]; [contradiction|discriminate].
  - assert (P : routeTypeOf (path to) <> PROTECTED)
      by (intros X; rewrite X in E; discriminate).
    rewrite (checkRouteAccess_open _ m P). simpl.
    split; [left; reflexivity|]. split; [intros _; left; exact P|reflexivity].
Qed.

(** X17. The two hooks of the mixin are the same function.  Where the path
    is not protected or the fetch from the store succeeds, they decide, and
    leave the state, as the hook of [useNavigationGuard] does.  Where the
    fetch fails on a protected path they throw, neither allowing nor
    redirecting, while the hook of [useNavigationGuard] redirects. *)
Theorem mixin_hooks (to : Route) (m : Machine) :
  beforeRouteUpdate validateJWT to m = beforeRouteEnter validateJWT to m /\
  (routeTypeOf (path to) <> PROTECTED \/
   faultAt (world m) (calls (world m)) = false ->
   beforeRouteEnter validateJWT to m =
   useNavigationGuard_beforeEach validateJWT to m) /\
  (routeTypeOf (path to) = PROTECTED ->
   faultAt (world m) (calls (world m)) = true ->
   fst (beforeRouteEnter validateJWT to m) = Throw StoreError /\
   fst (useNavigationGuard_beforeEach validateJWT to m) =
     Ok (REDIRECT "/auth")).
Proof.
  split; [reflexivity|].
  pose proof (isProtected_routeTypeOf (path to)) as IP.
  unfold beforeRouteEnter, useNavigationGuard_beforeEach, checkRouteAccess.
  destruct (isProtected (path to)).
  - assert (P : routeTypeOf (path to) = PROTECTED) by (apply IP; reflexivity).
    destruct m as [s [t0 ua ts lg tmr nid fa cl]]. simpl. split.
    + intros [N | F]; [contradiction|].
      run. rewrite F. simpl.
      repeat (branch; simpl); reflexivity.
    + intros _ F. run. rewrite F. simpl. split; reflexivity.
  - split; [reflexivity|].
    intros P. apply IP in P. discriminate P.
Qed.

(** X18. The middleware and the hook of [useNavigationGuard] reach the same
    decision on every path but the authentication route, when the calls to
    the store succeed. *)
Theorem guards_agree (to : Route) (m : Machine) :
  isAuthenticationRoute (path to) = false ->
  (forall k, faultAt (world m) k = false) ->
  fst (AuthMiddleware_beforeEach validateJWT to m) =
  fst (useNavigationGuard_beforeEach validateJWT to m).
Proof.
  intros A H.
  rewrite beforeEach_unfold.
  destruct (checkAuthentication_spec m) as (B & _ & _ & _ & _ & Fa & T & U).
  destruct (checkAuthentication validateJWT m) as [r m1]. simpl in *.
  rewrite A. simpl.
  pose proof (isProtected_routeTypeOf (path to)) as IP.
  rewrite isProtected_requiresAuthentication in IP.
  unfold useNavigationGuard_beforeEach, try_catch, bind, ret.
  destruct (requiresAuthentication (path to)) eqn:R.
  - assert (P : routeTypeOf (path to) = PROTECTED) by (apply IP; reflexivity).
    destruct (checkRouteAccess_protected (path to) m P) as (_ & Y & N).
    destruct B as [-> | ->]; simpl.
    + rewrite (Y (H _) (T eq_refl)). reflexivity.
    + rewrite Fa, H.
      destruct (valid_token_available validateJWT (world m)) eqn:V.
      * specialize (U eq_refl (H _)). discriminate U.
      * specialize (N (H _) eq_refl).
        destruct (checkRouteAccess validateJWT (path to) m) as [c m2].
        simpl in N. subst c. reflexivity.
  - assert (P : routeTypeOf (path to) <> PROTECTED).
    { intros X. apply IP in X. discriminate X. }
    rewrite (checkRouteAccess_open _ m P).
    destruct B as [-> | ->]; reflexivity.
Qed.

(** X19. A function wrapped by [withAuth] runs only when the access check
    passes.  On a path that is not protected it runs as it is; on a
    protected path with a valid token it runs after the fetch; with no
    valid token it does not run at all: the call throws the access-denied
    error, in the state the check left. *)
Theorem withAuth_runs_only_when_allowed {A : Type} (pathname : string)
    (fn : M A) (m : Machine) :
  (routeTypeOf pathname <> PROTECTED ->
   withAuth validateJWT pathname fn m = fn m) /\
  (routeTypeOf pathname = PROTECTED ->
   faultAt (world m) (calls (world m)) = false ->
   (valid_token_available validateJWT (world m) = true ->
    withAuth validateJWT pathname fn m =
    fn (mkMachine (session m) (count_call (world m)))) /\
   (valid_token_available validateJWT (world m) = false ->
    withAuth validateJWT pathname fn m =
    (Throw AccessDenied, snd (checkRouteAccess validateJWT pathname m)))).
Proof.
  unfold withAuth, bind. split.
  - intros P. rewrite (checkRouteAccess_open _ m P). reflexivity.
  - intros P F.
    destruct (checkRouteAccess_protected pathname m P) as (_ & B & C).
    split; intros V.
    + rewrite (B F V). reflexivity.
    + specialize (C F V).
      destruct (checkRouteAccess validateJWT pathname m) as [r m1].
      simpl in *. subst r. reflexivity.
Qed.



(** ** Properties of setupCSP *)

Lemma concat_empty_cons (x : string) (xs : list string) :
  String.concat "" (x :: xs) = x ++ String.concat "" xs.
Proof.
  destruct xs as [|y ys]; simpl; [|reflexivity].
  induction x as [|c x IH]; simpl; [reflexivity|].
  f_equal. exact IH.
Qed.

Lemma hex_pair_checked (b : Byte.byte) :
  match padStart 2 "0" (toString16 b) with
  | String c1 (String c2 EmptyString) =>
      match hexDigitValue c1, hexDigitValue c2 with
      | Some h, Some l =>
          match Byte.of_N (16 * h + l) with
          | Some b' => Byte.eqb b' b
          | None => false
          end
      | _, _ => false
      end
  | _ => false
  end = true.
Proof.
  destruct b; vm_compute; reflexivity.
Qed.

(** A byte is written as two lower-case hexadecimal digits that read back
    as the byte. *)
Lemma hex_pair (b : Byte.byte) :
  exists c1 c2 h l,
    padStart 2 "0" (toString16 b) = String c1 (String c2 "") /\
    hexDigitValue c1 = Some h /\ hexDigitValue c2 = Some l /\
    Byte.of_N (16 * h + l) = Some b.
Proof.
  pose proof (hex_pair_checked b) as H.
  destruct (padStart 2 "0" (toString16 b)) as [|c1 [|c2 [|c3 r]]];
    try discriminate H.
  destruct (hexDigitValue c1) as [h|] eqn:H1; [|discriminate H].
  destruct (hexDigitValue c2) as [l|] eqn:H2; [|discriminate H].
  destruct (Byte.of_N (16 * h + l)) as [b'|] eqn:E; [|discriminate H].
  apply Byte.byte_dec_bl in H. subst b'.
  exists c1, c2, h, l. repeat split; assumption.
Qed.

Lemma hex_digit_not_space (c : ascii) (h : N) :
  hexDigitValue c = Some h -> isSpace c = false.
Proof.
  unfold hexDigitValue, isSpace.
  destruct c as [[|] [|] [|] [|] [|] [|] [|] [|]];
    vm_compute; intros; try reflexivity; discriminate.
Qed.

(** X20. A nonce is twice as long as the array of random bytes, 64
    characters for the 32 bytes that [generateNonce] draws; all of them are
    lower-case hexadecimal digits, and none is white space. *)
Theorem generateNonce_hex (array : list Byte.byte) :
  String.length (generateNonce array) = (2 * List.length array)%nat /\
  Forall (fun c => isLowerHex c = true)
         (list_ascii_of_string (generateNonce array)) /\
  no_space (generateNonce array) = true /\
  (List.length array = 32%nat ->
   String.length (generateNonce array) = 64%nat).
Proof.
  unfold generateNonce.
  assert (G : String.length
                (String.concat ""
                   (map (fun b => padStart 2 "0" (toString16 b)) array)) =
              (2 * List.length array)%nat /\
              Forall (fun c => isLowerHex c = true)
                (list_ascii_of_string
                   (String.concat ""
                      (map (fun b => padStart 2 "0" (toString16 b)) array))) /\
              no_space
                (String.concat ""
                   (map (fun b => padStart 2 "0" (toString16 b)) array)) =
              true).
  { induction array as [|b array (L & F & N)].
    - repeat split. constructor.
    - cbn [map]. rewrite concat_empty_cons.
      destruct (hex_pair b) as (c1 & c2 & h & l & E & H1 & H2 & _).
      rewrite E. cbn [append String.length list_ascii_of_string no_space].
      assert (X1 : isLowerHex c1 = true) by (unfold isLowerHex; rewrite H1; reflexivity).
      assert (X2 : isLowerHex c2 = true) by (unfold isLowerHex; rewrite H2; reflexivity).
      pose proof (hex_digit_not_space c1 h H1) as S1.
      pose proof (hex_digit_not_space c2 l H2) as S2.
      split; [rewrite L; cbn [List.length]; lia|].
      split; [repeat constructor; assumption|].
      rewrite S1, S2, N. reflexivity. }
  destruct G as (L & F & N).
  repeat split; try assumption.
  intros H. rewrite L, H. reflexivity.
Qed.

(** X21. A nonce determines the random bytes it was made of: reading its
    digits back two by two gives the array, so two arrays with the same
    nonce are the same array. *)
Theorem generateNonce_injective (a b : list Byte.byte) :
  parseHex (generateNonce a) = Some a /\
  (generateNonce a = generateNonce b -> a = b).
Proof.
  assert (R : forall l, parseHex (generateNonce l) = Some l).
  { unfold generateNonce. induction l as [|x l IH]; [reflexivity|].
    cbn [map]. rewrite concat_empty_cons.
    destruct (hex_pair x) as (c1 & c2 & h & lo & E & H1 & H2 & B).
    rewrite E. cbn [append parseHex]. rewrite H1, H2, IH, B. reflexivity. }
  split; [apply R|].
  intros E. pose proof (R a) as Ra. rewrite E, R in Ra. congruence.
Qed.


(** ** Properties of the content security policy *)

Lemma collapse_no_space (n rest : string) :
  no_space n = true ->
  collapse false (n ++ rest) = n ++ collapse false rest.
Proof.
  induction n as [|c n IH]; cbn [no_space append collapse];
    [reflexivity|].
  intros H. apply andb_prop in H. destruct H as [C N].
  apply negb_true_iff in C. rewrite C, (IH N). reflexivity.
Qed.

Lemma collapse_before_char (a rest : string) (c : ascii) (b : bool) :
  isSpace c = false ->
  collapse b (a ++ String c rest) =
  collapse b a ++ String c (collapse false rest).
Proof.
  intros C. revert b. induction a as [|x a IH]; intros b;
    cbn [append collapse].
  - rewrite C. reflexivity.
  - destruct (isSpace x); [destruct b|]; cbn [append]; rewrite IH;
      reflexivity.
Qed.

Lemma trimEnd_append (a b : string) :
  trimEnd b <> "" -> trimEnd (a ++ b) = a ++ trimEnd b.
Proof.
  intros H. induction a as [|c a IH]; cbn [append trimEnd];
    [reflexivity|].
  rewrite IH. destruct (a ++ trimEnd b) eqn:E; [|reflexivity].
  destruct a; [simpl in E; contradiction|discriminate E].
Qed.

Lemma append_not_empty (a b : string) : b <> "" -> a ++ b <> "".
Proof.
  intros H E. destruct a; [exact (H E)|discriminate E].
Qed.

(** X22. The policy that [setupCSPMetaTag] builds, for a nonce without
    white space, and so for every nonce of [generateNonce]: the nine
    directives on one line, one space apart, with the nonce in
    [script-src], followed by the trusted-types directive exactly when a
    policy was passed in, and no white space at either end. *)
Theorem cspContent_tidy :
  (forall nonce trustedTypesPolicy,
      no_space nonce = true ->
      cspContent nonce trustedTypesPolicy =
      "default-src 'self'; script-src 'self' 'nonce-" ++ nonce ++
      "' 'strict-dynamic' https: 'unsafe-inline'; " ++
      "style-src 'self' 'unsafe-inline' https://fonts.googleapis.com; " ++
      "font-src 'self' https://fonts.gstatic.com; " ++
      "connect-src 'self' https://api.yourapi.com; " ++
      "object-src 'none'; base-uri 'self'; form-action 'self'; " ++
      "frame-ancestors 'none';" ++
      (if trustedTypesPolicy then " require-trusted-types-for 'script';"
       else "")) /\
  (forall array trustedTypesPolicy,
      cspContent (generateNonce array) trustedTypesPolicy =
      "default-src 'self'; script-src 'self' 'nonce-" ++
      generateNonce array ++
      "' 'strict-dynamic' https: 'unsafe-inline'; " ++
      "style-src 'self' 'unsafe-inline' https://fonts.googleapis.com; " ++
      "font-src 'self' https://fonts.gstatic.com; " ++
      "connect-src 'self' https://api.yourapi.com; " ++
      "object-src 'none'; base-uri 'self'; form-action 'self'; " ++
      "frame-ancestors 'none';" ++
      (if trustedTypesPolicy then " require-trusted-types-for 'script';"
       else "")).
Proof.
  assert (G : forall nonce trustedTypesPolicy,
      no_space nonce = true ->
      cspContent nonce trustedTypesPolicy =
      "default-src 'self'; script-src 'self' 'nonce-" ++ nonce ++
      "' 'strict-dynamic' https: 'unsafe-inline'; " ++
      "style-src 'self' 'unsafe-inline' https://fonts.googleapis.com; " ++
      "font-src 'self' https://fonts.gstatic.com; " ++
      "connect-src 'self' https://api.yourapi.com; " ++
      "object-src 'none'; base-uri 'self'; form-action 'self'; " ++
      "frame-ancestors 'none';" ++
      (if trustedTypesPolicy then " require-trusted-types-for 'script';"
       else "")).
  {
    intros nonce tt N.
    set (pre := newline ++ "      default-src 'self';" ++ newline ++
                "      script-src 'self' 'nonce").
    set (post := "' 'strict-dynamic' https: 'unsafe-inline';" ++ newline ++
      "      style-src 'self' 'unsafe-inline' https://fonts.googleapis.com;" ++
      newline ++
      "      font-src 'self' https://fonts.gstatic.com;" ++ newline ++
      "      connect-src 'self' https://api.yourapi.com;" ++ newline ++
      "      object-src 'none';" ++ newline ++
      "      base-uri 'self';" ++ newline ++
      "      form-action 'self';" ++ newline ++
      "      frame-ancestors 'none';" ++ newline ++
      "      " ++
      (if tt then "require-trusted-types-for 'script';" else "") ++
      newline ++ "    ").
    assert (T : cspTemplate nonce tt = pre ++ String "-" (nonce ++ post)).
    { destruct tt; reflexivity. }
    unfold cspContent, trim. rewrite T.
    rewrite collapse_before_char by reflexivity.
    rewrite (collapse_no_space _ _ N).
    assert (E1 : collapse false pre =
                 String " " "default-src 'self'; script-src 'self' 'nonce").
    { vm_compute; reflexivity. }
    rewrite E1.
    change (trimStart (String " " "default-src 'self'; script-src 'self' 'nonce" ++
              String "-" (nonce ++ collapse false post)))
      with ("default-src 'self'; script-src 'self' 'nonce-" ++
            (nonce ++ collapse false post)).
    assert (E2 : trimEnd (collapse false post) =
      "' 'strict-dynamic' https: 'unsafe-inline'; " ++
        "style-src 'self' 'unsafe-inline' https://fonts.googleapis.com; " ++
        "font-src 'self' https://fonts.gstatic.com; " ++
        "connect-src 'self' https://api.yourapi.com; " ++
        "object-src 'none'; base-uri 'self'; form-action 'self'; " ++
        "frame-ancestors 'none';" ++
        (if tt then " require-trusted-types-for 'script';" else "")).
    { destruct tt; vm_compute; reflexivity. }
    assert (NE : trimEnd (collapse false post) <> "").
    { rewrite E2. discriminate. }
    rewrite trimEnd_append.
    - rewrite trimEnd_append by exact NE. rewrite E2. reflexivity.
    - rewrite trimEnd_append by exact NE. apply append_not_empty.
      exact NE.
  }
  split; [exact G|].
  intros array tt. apply G.
  assert (N : forall l, no_space (generateNonce l) = true).
  { unfold generateNonce. induction l as [|b l IH]; [reflexivity|].
    cbn [map]. rewrite concat_empty_cons.
    destruct (hex_pair b) as (c1 & c2 & h & lo & E & H1 & H2 & _).
    rewrite E. cbn [append no_space].
    rewrite (hex_digit_not_space c1 h H1), (hex_digit_not_space c2 lo H2), IH.
    reflexivity. }
  apply N.
Qed.

(** X23. [applyCSP] returns the nonce and appends one policy element to
    [head], also when one is there already: a second call leaves two.
    Every script that had a nonce keeps it and every other gets the nonce
    of the policy, so with a nonce of 32 bytes no script is left without
    one; a second call changes no script. *)
Theorem applyCSP_scripts (nonce : string) (trustedTypesPolicy : bool)
    (doc : Document) :
  let r := applyCSP nonce trustedTypesPolicy doc in
  let r2 := applyCSP nonce trustedTypesPolicy (snd r) in
  fst r = nonce /\
  head (snd r) =
    (head doc ++
     [mkMeta "Content-Security-Policy"
             (cspContent nonce trustedTypesPolicy)])%list /\
  scripts (snd r) =
    map (fun n => if truthy n then n else nonce) (scripts doc) /\
  (truthy nonce = true ->
   Forall (fun n => truthy n = true) (scripts (snd r))) /\
  scripts (snd r2) = scripts (snd r) /\
  List.length (head (snd r2)) = S (S (List.length (head doc))).
Proof.
  destruct doc as [h sc]. unfold applyCSP, setupCSPMetaTag.
  cbn [fst snd head scripts].
  assert (M : map (fun n => if negb (truthy n) then nonce else n) sc =
              map (fun n => if truthy n then n else nonce) sc).
  { apply map_ext. intros n. destruct (truthy n); reflexivity. }
  rewrite M. clear M.
  split; [reflexivity|]. split; [reflexivity|]. split; [reflexivity|].
  split; [|split].
  - intros T. induction sc as [|n sc IH]; cbn [map]; constructor.
    + destruct (truthy n) eqn:E; assumption.
    + exact IH.
  - rewrite map_map. apply map_ext. intros n.
    destruct (truthy n) eqn:E; [rewrite E; reflexivity|].
    destruct (truthy nonce) eqn:E2; reflexivity.
  - rewrite !length_app. cbn [List.length]. lia.
Qed.


(** ** Failures and attribution *)

(** X24. [startSession] touches nothing until the token is issued and
    stored: when the codec fails, or the store refuses the token, the call
    throws and the session, the stored token, the event log and the pending
    deadlines are as before. *)
Theorem startSession_fails_clean (u : User) (cred : string) (m : Machine) :
  faultAt (world m) (calls (world m)) = true \/
  faultAt (world m) (S (calls (world m))) = true ->
  let r := startSession generateJWT u cred m in
  (fst r = Throw CodecError \/ fst r = Throw StoreError) /\
  session (snd r) = session m /\
  tokenStore (world (snd r)) = tokenStore (world m) /\
  eventLog (world (snd r)) = eventLog (world m) /\
  timers (world (snd r)) = timers (world m).
Proof.
  destruct m as [s [t0 ua ts lg tmr nid fa cl]]. simpl.
  intros H. run.
  destruct (fa cl) eqn:F0; simpl; [repeat split; auto|].
  destruct H as [H | H]; [discriminate H|].
  rewrite H. simpl. repeat split; auto.
Qed.

(** X25. A log write that fails blocks the sign-out: [endSession] on an
    authenticated session whose [SESSION_END] entry cannot be written
    throws, and the session stays authenticated, with its user, token,
    start time and pending deadline, and the store keeps its token. *)
Theorem endSession_log_failure_keeps_session (r : option string)
    (m : Machine) :
  isAuthenticated (session m) = true ->
  faultAt (world m) (calls (world m)) = true ->
  endSession r m =
    (Throw StoreError, mkMachine (session m) (count_call (world m))).
Proof.
  destruct m as [[a u st n tm tk] [t0 ua ts lg tmr nid fa cl]]. simpl.
  intros -> F. run. destruct st; simpl; rewrite F; reflexivity.
Qed.

Lemma initSession_frame (m : Machine) :
  now (world (snd (initSession validateJWT m))) = now (world m) /\
  faultAt (world (snd (initSession validateJWT m))) = faultAt (world m).
Proof.
  destruct m as [[a u st n tm tk] [t0 ua ts lg tmr nid fa cl]].
  run. repeat (branch; simpl); split; reflexivity.
Qed.

(** A run of [endSession] on an authenticated session in which no call
    fails. *)
Lemma endSession_runs (r : option string) (m : Machine) :
  isAuthenticated (session m) = true ->
  (forall k, faultAt (world m) k = false) ->
  fst (endSession r m) = Ok tt /\
  eventLog (world (snd (endSession r m))) =
    (eventLog (world m) ++
     [mkEvent SESSION_END
              (or_else (option_map username (sessionUser (session m)))
                       "unknown")
              [("reason", VStr match r with
                               | Some x => x
                               | None => "user_logout"
                               end);
               ("duration",
                VNum match sessionStart (session m) with
                     | Some start => (now (world m) - start) / 1000
                     | None => 0
                     end)]
              (now (world m))])%list.
Proof.
  destruct m as [[a u st n tm tk] [t0 ua ts lg tmr nid fa cl]].
  cbn [session world isAuthenticated faultAt]. intros -> H. run.
  repeat (first [progress (rewrite ?H; simpl) | branch; simpl]);
    split; reflexivity.
Qed.

(** X26. A session resumed by [initSession] has no user, so its end is
    attributed to [unknown]: after a resume of a session without a user
    and an [endSession] right after it, with every call succeeding, the
    log has gained a [SESSION_START] entry of [system] and a [SESSION_END]
    entry of [unknown] with a duration of 0. *)
Theorem resumed_session_ends_as_unknown (r : option string) (m : Machine)
    (t : string) (exp : Z) :
  sessionUser (session m) = None ->
  tokenStore (world m) = Some (t, exp) ->
  valid_token_available validateJWT (world m) = true ->
  (forall k, faultAt (world m) k = false) ->
  let m1 := snd (initSession validateJWT m) in
  let m2 := snd (endSession r m1) in
  fst (endSession r m1) = Ok tt /\
  eventLog (world m2) =
    (eventLog (world m) ++
     [mkEvent SESSION_START "system"
              [("token", VStr (substring 0 10 t ++ "..."))] (now (world m));
      mkEvent SESSION_END "unknown"
              [("reason", VStr match r with
                               | Some x => x
                               | None => "user_logout"
                               end);
               ("duration", VNum 0)] (now (world m))])%list.
Proof.
  intros U St V H m1 m2.
  destruct (valid_token_available_inv _ V) as (t' & exp' & St' & E & T & J).
  rewrite St in St'. inversion St'; subst t' exp'. clear St'.
  destruct (initSession_runs m t exp St E T J (H _) (H _))
    as (_ & S & L & _).
  destruct (initSession_frame m) as [N F].
  fold m1 in S, L, N, F.
  assert (A1 : isAuthenticated (session m1) = true)
    by (rewrite S; reflexivity).
  assert (H1 : forall k, faultAt (world m1) k = false)
    by (intro k; rewrite F; apply H).
  destruct (endSession_runs r m1 A1 H1) as [R L2]. fold m2 in L2.
  split; [exact R|].
  rewrite L2, L, S, N, U.
  cbn [sessionUser sessionStart option_map or_else].
  rewrite Z.sub_diag, <- app_assoc. reflexivity.
Qed.

End Properties.

(** ** The properties on concrete runs *)

(** Outside the contract of the store: were the write of the
    [SESSION_START] entry to reject, [initSession] and [startSession] would
    throw with the session authenticated, the token and the start time
    written, and no inactivity deadline set.  Neither state is the one
    before the call, and neither is a full sign-in. *)
Lemma log_failure_leaves_session_half_signed_in :
  let m := mkMachine emptySession secondCallFails in
  let r := initSession demo_validateJWT m in
  let m' := mkMachine emptySession thirdCallFails in
  let r' := startSession demo_generateJWT alice "cred1" m' in
  (fst r = Throw StoreError /\
   session (snd r) =
     mkSession true None (Some 1000000) 900 None (Some "eyJhbGciOi.alice") /\
   timers (world (snd r)) = [] /\
   session (snd r) <> session m /\
   signed_in (snd r) = false) /\
  (fst r' = Throw StoreError /\
   session (snd r') =
     mkSession true (Some alice) (Some 1000000) 900 None
               (Some "eyJhbGciOi.alice") /\
   timers (world (snd r')) = [] /\
   session (snd r') <> session m' /\
   signed_in (snd r') = false).
Proof.
  simpl. repeat split; try reflexivity; discriminate.
Qed.

(** Calls that overlap reach states that calls made one after the other
    do not.  With [endSession] run between the awaits of [startSession],
    the page ends signed out with the timeout that [startSession] has set
    still pending, held by the session. *)
Lemma overlap_leaves_timeout_pending :
  let m := machine (play demo_generateJWT demo_validateJWT overlappingMoves
                         (freshPage emptyWorld)) in
  session m = mkSession false None None 900 (Some 1%positive) None /\
  timers (world m) = [(1%positive, 1900000)] /\
  map kind (eventLog (world m)) = [SESSION_END; SESSION_START].
Proof. vm_compute. repeat split. Qed.

(** C2 does not hold as to the validity of the token.  A session is
    started under a timeout of two hours; at 4000 s the codec of the
    examples no longer accepts its token, which the store still holds.
    [initSession] fetches that token, the check fails, the call returns
    false, and the state it leaves, a state the session manager reaches, is
    authenticated with the token whose last check has failed. *)
Lemma failed_check_leaves_session_authenticated :
  let m0 := mkMachine emptySession emptyWorld in
  let m1 := after demo_generateJWT demo_validateJWT
                  (CallUpdateSessionTimeout 7200) m0 in
  let m2 := after demo_generateJWT demo_validateJWT
                  (CallStartSession alice "cred1") m1 in
  let m3 := mkMachine (session m2) (atTime 4000000 (world m2)) in
  let m4 := after demo_generateJWT demo_validateJWT CallInitSession m3 in
  reachable demo_generateJWT demo_validateJWT m4 /\
  tokenStore (world m3) = Some ("eyJhbGciOi.alice", 8200000) /\
  demo_validateJWT (now (world m3)) "eyJhbGciOi.alice" = false /\
  fst (initSession demo_validateJWT m3) = Ok false /\
  isAuthenticated (session m4) = true /\
  sessionToken (session m4) = Some "eyJhbGciOi.alice".
Proof.
  intros m0 m1 m2 m3 m4.
  split; [|repeat split; reflexivity].
  unfold m4, m3, m2, m1, m0.
  apply reachable_call, reachable_world, reachable_call, reachable_call,
    reachable_fresh.
Qed.

(** C1 does not hold of either guard.  With nothing to resume, the hook of
    [useRouteGuard] attempts [initSession], which fails, and redirects to
    ["/auth"], but no [UNAUTHORIZED_ACCESS] entry is written.  With a token
    to resume, [initSession] would sign the session in and log a
    [SESSION_START]; the middleware allows the navigation without either. *)
Lemma no_guard_resumes_and_logs :
  let m := mkMachine emptySession emptyWorld in
  let g := useRouteGuard_beforeEach demo_validateJWT dashboard m in
  let m1 := mkMachine emptySession tokenWorld in
  let i := initSession demo_validateJWT m1 in
  let a := AuthMiddleware_beforeEach demo_validateJWT dashboard m1 in
  (requiresAuthentication (path dashboard) = true /\
   isAuthenticated (session m) = false /\
   fst (initSession demo_validateJWT m) = Ok false /\
   fst g = Ok (REDIRECT "/auth") /\
   count_kind UNAUTHORIZED_ACCESS (eventLog (world (snd g))) = 0%nat) /\
  (isAuthenticated (session m1) = false /\
   fst i = Ok true /\
   isAuthenticated (session (snd i)) = true /\
   count_kind SESSION_START (eventLog (world (snd i))) = 1%nat /\
   fst a = Ok ALLOW /\
   isAuthenticated (session (snd a)) = false /\
   count_kind SESSION_START (eventLog (world (snd a))) = 0%nat).
Proof.
  simpl. repeat split; reflexivity.
Qed.


(** C4 does not hold.  Both redirects of the middleware leave the log
    without a [ROUTE_ACCESS] entry. *)
Lemma redirect_logs_no_route_access :
  let a := AuthMiddleware_beforeEach demo_validateJWT dashboard
             (mkMachine emptySession emptyWorld) in
  let b := AuthMiddleware_beforeEach demo_validateJWT authPage
             (mkMachine emptySession tokenWorld) in
  (fst a = Ok (REDIRECT "/auth") /\
   count_kind ROUTE_ACCESS (eventLog (world (snd a))) = 0%nat) /\
  (fst b = Ok (REDIRECT "/dashboard") /\
   eventLog (world (snd b)) = []).
Proof.
  simpl. repeat split; reflexivity.
Qed.

(** ** The theorems at concrete inputs *)

Lemma protected_route_without_token_witness :
  let m := mkMachine emptySession emptyWorld in
  (requiresAuthentication (path dashboard) = true /\
   valid_token_available demo_validateJWT (world m) = false /\
   fst (AuthMiddleware_beforeEach demo_validateJWT dashboard m) =
     Ok (REDIRECT "/auth") /\
   count_kind UNAUTHORIZED_ACCESS
     (eventLog (world (snd (AuthMiddleware_beforeEach demo_validateJWT
                              dashboard m)))) = 1%nat) /\
  (isAuthenticated (session m) = false /\
   useRouteGuard_beforeEach demo_validateJWT dashboard m =
     (Ok (REDIRECT "/auth"), snd (initSession demo_validateJWT m))).
Proof.
  intros m.
  destruct (protected_route_without_token demo_validateJWT) as [A B].
  destruct (A dashboard m) as (D & _ & _ & C);
    [reflexivity|reflexivity|reflexivity|].
  destruct (B dashboard m) as (G & _);
    [reflexivity|reflexivity|reflexivity|].
  repeat split; first [assumption | reflexivity].
Defined.

Lemma reachable_session_invariant_witness :
  let m := after demo_generateJWT demo_validateJWT
                 (CallStartSession alice "cred1")
                 (mkMachine emptySession emptyWorld) in
  reachable demo_generateJWT demo_validateJWT m /\
  session_invariant (session m) /\
  fst (sessionValidation demo_validateJWT m) = Ok tt /\
  demo_validateJWT (now (world m)) "eyJhbGciOi.alice" = true /\
  valid_token_available demo_validateJWT staleWorld = false /\
  session (snd (initSession demo_validateJWT
                  (mkMachine aliceSession staleWorld))) = aliceSession.
Proof.
  intros m.
  assert (R : reachable demo_generateJWT demo_validateJWT m)
    by (apply reachable_call, reachable_fresh).
  destruct (reachable_session_invariant demo_generateJWT demo_validateJWT)
    as (A & _ & C & D).
  split; [exact R|]. split; [exact (A m R)|]. split; [reflexivity|].
  split; [apply (C m); reflexivity|].
  split; [reflexivity|].
  exact (D (mkMachine aliceSession staleWorld) eq_refl).
Defined.



Lemma route_access_logged_on_allow_only_witness :
  let m := mkMachine emptySession tokenWorld in
  let r := AuthMiddleware_beforeEach demo_validateJWT home m in
  r = (Ok ALLOW, snd r) /\
  exists isAuth,
    fst (checkAuthentication demo_validateJWT m) = Ok isAuth /\
    eventLog (world (snd r)) =
      [mkEvent ROUTE_ACCESS (if isAuth then "authenticated" else "anonymous")
               [("path", VStr "/"); ("authenticated", VBool isAuth);
                ("timestamp", VNum 1000000)] 1000000].
Proof.
  intros m r.
  assert (E : r = (Ok ALLOW, snd r)) by reflexivity.
  split; [exact E|].
  exact (route_access_logged_on_allow_only demo_validateJWT home m (snd r)
                                           ALLOW E).
Defined.

Lemma endSession_idempotent_witness :
  let m := mkMachine aliceSession aliceWorld in
  let m1 := snd (endSession None m) in
  let m2 := snd (endSession (Some "inactivity_timeout") m1) in
  (forall k, faultAt (world m) k = false) /\
  fst (endSession (Some "inactivity_timeout") m1) = Ok tt /\
  session m2 = session m1 /\
  eventLog (world m2) = eventLog (world m1).
Proof.
  intros m m1 m2.
  assert (H : forall k, faultAt (world m) k = false) by (intro k; reflexivity).
  destruct (endSession_idempotent None (Some "inactivity_timeout") m H)
    as (_ & R & S & _ & L & _).
  repeat split; assumption.
Defined.

Lemma guard_decisions_witness :
  let m := mkMachine emptySession tokenWorld in
  valid_token_available demo_validateJWT (world m) = true /\
  fst (AuthMiddleware_beforeEach demo_validateJWT authPage m) =
    Ok (REDIRECT "/dashboard") /\
  fst (AuthMiddleware_beforeEach demo_validateJWT home m) = Ok ALLOW /\
  lookup "/about" routeConfig = None /\
  fst (AuthMiddleware_beforeEach demo_validateJWT (mkRoute "/about" []) m) =
    Ok ALLOW.
Proof.
  intros m.
  destruct (guard_decisions demo_validateJWT) as (A & B & C).
  split; [reflexivity|].
  split; [apply A; reflexivity|].
  split; [apply B; reflexivity|].
  split; [reflexivity|].
  apply (C (mkRoute "/about" []) m). reflexivity.
Defined.

Lemma checkRouteAccess_denied_iff_witness :
  let m := mkMachine emptySession emptyWorld in
  faultAt (world m) (calls (world m)) = false /\
  routeTypeOf "/dashboard" = PROTECTED /\
  valid_token_available demo_validateJWT (world m) = false /\
  fst (checkRouteAccess demo_validateJWT "/dashboard" m) = Throw AccessDenied /\
  routeTypeOf "/auth" <> PROTECTED /\
  checkRouteAccess demo_validateJWT "/auth" m = (Ok true, m).
Proof.
  intros m.
  destruct (checkRouteAccess_denied_iff demo_validateJWT "/dashboard" m)
    as (_ & B).
  destruct (B eq_refl) as ((_ & D) & _).
  destruct (checkRouteAccess_denied_iff demo_validateJWT "/auth" m)
    as (A & _).
  assert (N : routeTypeOf "/auth" <> PROTECTED) by discriminate.
  split; [reflexivity|]. split; [reflexivity|]. split; [reflexivity|].
  split; [apply D; split; reflexivity|].
  split; [exact N|exact (A N)].
Defined.

Lemma endSession_then_initSession_resumes_witness :
  let m := mkMachine aliceSession aliceWorld in
  let m1 := snd (endSession (Some "token_expired") m) in
  valid_token_available demo_validateJWT (world m) = true /\
  (forall k, faultAt (world m) k = false) /\
  isAuthenticated (session m1) = false /\
  fst (initSession demo_validateJWT m1) = Ok true /\
  isAuthenticated (session (snd (initSession demo_validateJWT m1))) = true.
Proof.
  intros m m1.
  assert (V : valid_token_available demo_validateJWT (world m) = true)
    by reflexivity.
  assert (H : forall k, faultAt (world m) k = false) by (intro k; reflexivity).
  destruct (endSession_then_initSession_resumes demo_validateJWT
              (Some "token_expired") m V H) as (A & _ & I & B & _).
  repeat split; assumption.
Defined.


(** ** The further theorems at concrete inputs *)


Lemma timeoutFires_ends_session_witness :
  let m := mkMachine aliceSession dueWorld in
  isAuthenticated (session m) = true /\
  inactivityTimer (session m) = Some 1%positive /\
  timers (world m) = [(1%positive, 1300000)] /\
  1300000 <= now (world m) /\
  signed_out (snd (timeoutFires 1%positive m)) = true /\
  timers (world (snd (timeoutFires 1%positive m))) = [] /\
  timeoutFires 1%positive (mkMachine aliceSession aliceWorld) =
    (Ok tt, mkMachine aliceSession aliceWorld).
Proof.
  intros m.
  destruct (timeoutFires_ends_session 1%positive 1300000 m
              eq_refl eq_refl eq_refl) as (_ & _ & C).
  assert (L : 1300000 <= now (world m)) by (simpl; lia).
  destruct (C L eq_refl) as (S & T & _).
  destruct (timeoutFires_ends_session 1%positive 1300000
              (mkMachine aliceSession aliceWorld)
              eq_refl eq_refl eq_refl) as (_ & B & _).
  assert (E : now (world (mkMachine aliceSession aliceWorld)) < 1300000)
    by (simpl; lia).
  split; [reflexivity|]. split; [reflexivity|]. split; [reflexivity|].
  split; [exact L|]. split; [exact S|]. split; [exact T|exact (B E)].
Defined.

Lemma replaced_deadline_never_fires_witness :
  let m := mkMachine aliceSession aliceWorld in
  let m1 := snd (resetInactivityTimer m) in
  (1 < nextTimer (world m))%positive /\
  timeoutFires 1%positive (mkMachine (session m1) (world m1)) =
    (Ok tt, mkMachine (session m1) (world m1)).
Proof.
  intros m m1.
  assert (L : (1 < nextTimer (world m))%positive) by (simpl; lia).
  split; [exact L|].
  exact (replaced_deadline_never_fires 1%positive 1300000 m (world m1)
           eq_refl eq_refl eq_refl L eq_refl).
Defined.

Lemma sessionValidation_expires_witness :
  let m := mkMachine aliceSession staleWorld in
  demo_validateJWT (now (world m)) "eyJhbGciOi.alice" = false /\
  signed_out (snd (sessionValidation demo_validateJWT m)) = true /\
  sessionValidation demo_validateJWT (mkMachine aliceSession aliceWorld) =
    (Ok tt, mkMachine aliceSession aliceWorld).
Proof.
  intros m.
  destruct (sessionValidation_expires demo_validateJWT m) as (_ & _ & C).
  destruct (C "eyJhbGciOi.alice" eq_refl eq_refl eq_refl eq_refl eq_refl)
    as (S & _).
  destruct (sessionValidation_expires demo_validateJWT
              (mkMachine aliceSession aliceWorld)) as (_ & B & _).
  split; [reflexivity|]. split; [exact S|].
  exact (B "eyJhbGciOi.alice" eq_refl eq_refl).
Defined.

Lemma formatSessionDuration_units_witness :
  let m := mkMachine aliceSession aliceWorld in
  sessionStart (session m) = Some 400000 /\
  400000 <= now (world m) /\
  (exists h mi s,
      (now (world m) - 400000) / 1000 = 3600 * h + 60 * mi + s /\
      0 <= h /\ 0 <= mi < 60 /\ 0 <= s < 60 /\
      formatSessionDuration m =
        (Ok (if 0 <? h then
               showNumber h ++ "h " ++ showNumber mi ++ "m " ++
               showNumber s ++ "s"
             else if 0 <? mi then
               showNumber mi ++ "m " ++ showNumber s ++ "s"
             else showNumber s ++ "s"), m)) /\
  formatSessionDuration (mkMachine emptySession emptyWorld) =
    (Ok "0s", mkMachine emptySession emptyWorld).
Proof.
  intros m.
  destruct (formatSessionDuration_units m) as [_ B].
  destruct (formatSessionDuration_units (mkMachine emptySession emptyWorld))
    as [A _].
  assert (L : 400000 <= now (world m)) by (simpl; lia).
  split; [reflexivity|]. split; [exact L|].
  split; [exact (B 400000 eq_refl L)|exact (A eq_refl)].
Defined.

Lemma getSessionDuration_floor_witness :
  let m := mkMachine aliceSession aliceWorld in
  sessionStart (session m) = Some 400000 /\
  (exists d, fst (getSessionDuration m) = Ok d /\
             1000 * d <= now (world m) - 400000 < 1000 * d + 1000) /\
  fst (getSessionDuration (mkMachine emptySession emptyWorld)) = Ok 0.
Proof.
  intros m.
  destruct (getSessionDuration_floor m) as (_ & _ & C).
  destruct (getSessionDuration_floor (mkMachine emptySession emptyWorld))
    as (_ & B & _).
  split; [reflexivity|]. split; [exact (C 400000 eq_refl)|exact (B eq_refl)].
Defined.

Lemma initSession_fails_closed_witness :
  let m := mkMachine emptySession emptyWorld in
  valid_token_available demo_validateJWT (world m) = false /\
  session (snd (initSession demo_validateJWT m)) = session m /\
  eventLog (world (snd (initSession demo_validateJWT m))) = eventLog (world m).
Proof.
  intros m.
  destruct (initSession_fails_closed demo_validateJWT m eq_refl)
    as (_ & S & L & _).
  split; [reflexivity|]. split; [exact S|exact L].
Defined.

Lemma initSession_logs_excerpt_witness :
  let m := mkMachine emptySession tokenWorld in
  tokenStore (world m) = Some ("eyJhbGciOi.alice", 1900000) /\
  fst (initSession demo_validateJWT m) = Ok true /\
  exists excerpt,
    eventLog (world (snd (initSession demo_validateJWT m))) =
      (eventLog (world m) ++
       [mkEvent SESSION_START "system" [("token", VStr excerpt)]
                (now (world m))])%list /\
    excerpt = substring 0 10 "eyJhbGciOi.alice" ++ "..." /\
    String.length excerpt =
      (Nat.min 10 (String.length "eyJhbGciOi.alice") + 3)%nat /\
    ((13 < String.length "eyJhbGciOi.alice")%nat ->
     excerpt <> "eyJhbGciOi.alice").
Proof.
  intros m.
  split; [reflexivity|]. split; [reflexivity|].
  exact (initSession_logs_excerpt demo_validateJWT m "eyJhbGciOi.alice"
           1900000 eq_refl eq_refl).
Defined.


Lemma sessionInfo_after_startSession_witness :
  let m := mkMachine emptySession emptyWorld in
  (forall k, faultAt (world m) k = false) /\
  fst (sessionInfo (snd (startSession demo_generateJWT alice "cred1" m))) =
    Ok (mkSessionInfo true (Some alice) (Some 1000000) 0 "0s" 900).
Proof.
  intros m.
  assert (H : forall k, faultAt (world m) k = false) by (intro k; reflexivity).
  split; [exact H|].
  exact (sessionInfo_after_startSession demo_generateJWT alice "cred1" m H).
Defined.

Lemma useRouteGuard_allows_only_authenticated_witness :
  let m := mkMachine emptySession tokenWorld in
  existsb (fun r => r) (matched dashboard) = true /\
  fst (useRouteGuard_beforeEach demo_validateJWT dashboard m) = Ok ALLOW /\
  isAuthenticated
    (session (snd (useRouteGuard_beforeEach demo_validateJWT dashboard m))) =
    true /\
  useRouteGuard_beforeEach demo_validateJWT home m = (Ok ALLOW, m).
Proof.
  intros m.
  destruct (useRouteGuard_allows_only_authenticated demo_validateJWT
              dashboard m) as (_ & B & _).
  destruct (useRouteGuard_allows_only_authenticated demo_validateJWT
              home m) as (A & _).
  split; [reflexivity|]. split; [reflexivity|].
  split; [exact (B eq_refl eq_refl)|exact (A eq_refl)].
Defined.

Lemma AuthMiddleware_allows_only_with_token_witness :
  let m := mkMachine emptySession tokenWorld in
  requiresAuthentication (path dashboard) = true /\
  fst (AuthMiddleware_beforeEach demo_validateJWT dashboard m) = Ok ALLOW /\
  valid_token_available demo_validateJWT (world m) = true /\
  fst (AuthMiddleware_beforeEach demo_validateJWT dashboard
         (mkMachine emptySession secondCallFails)) = Ok ALLOW.
Proof.
  intros m.
  destruct (AuthMiddleware_allows_only_with_token demo_validateJWT
              dashboard m) as (_ & B & _).
  split; [reflexivity|]. split; [reflexivity|].
  split; [exact (B eq_refl eq_refl)|reflexivity].
Defined.

Lemma protected_paths_witness :
  requiresAuthentication "/profile" = true /\
  requiresAuthentication "/dashboard/" = false /\
  isAuthenticationRoute "/auth" = true.
Proof.
  destruct (protected_paths "/profile") as ((_ & A) & _).
  destruct (protected_paths "/dashboard/") as (_ & _ & C).
  destruct (protected_paths "/auth") as (_ & (_ & B) & _).
  split; [apply A; right; right; reflexivity|].
  split; [rewrite <- C; reflexivity|apply B; reflexivity].
Defined.

Lemma useNavigationGuard_fails_closed_witness :
  let m := mkMachine emptySession firstCallFails in
  routeTypeOf (path dashboard) = PROTECTED /\
  faultAt (world m) (calls (world m)) = true /\
  fst (useNavigationGuard_beforeEach demo_validateJWT dashboard m) =
    Ok (REDIRECT "/auth") /\
  fst (useNavigationGuard_beforeEach demo_validateJWT dashboard
         (mkMachine emptySession tokenWorld)) = Ok ALLOW.
Proof.
  intros m.
  destruct (useNavigationGuard_fails_closed demo_validateJWT dashboard m)
    as ([A | A] & I).
  - apply I in A. destruct A as [N | [F _]].
    + exfalso. apply N. reflexivity.
    + discriminate F.
  - destruct (useNavigationGuard_fails_closed demo_validateJWT dashboard
                (mkMachine emptySession tokenWorld)) as (_ & J).
    split; [reflexivity|]. split; [reflexivity|]. split; [exact A|].
    apply J. right. split; reflexivity.
Defined.

Lemma mixin_hooks_witness :
  let m := mkMachine emptySession firstCallFails in
  routeTypeOf (path dashboard) = PROTECTED /\
  faultAt (world m) (calls (world m)) = true /\
  fst (beforeRouteEnter demo_validateJWT dashboard m) = Throw StoreError /\
  fst (useNavigationGuard_beforeEach demo_validateJWT dashboard m) =
    Ok (REDIRECT "/auth") /\
  beforeRouteEnter demo_validateJWT dashboard
    (mkMachine emptySession emptyWorld) =
  useNavigationGuard_beforeEach demo_validateJWT dashboard
    (mkMachine emptySession emptyWorld).
Proof.
  intros m.
  destruct (mixin_hooks demo_validateJWT dashboard m) as (_ & _ & C).
  destruct (C eq_refl eq_refl) as [T R].
  destruct (mixin_hooks demo_validateJWT dashboard
              (mkMachine emptySession emptyWorld)) as (_ & B & _).
  split; [reflexivity|]. split; [reflexivity|]. split; [exact T|].
  split; [exact R|]. apply B. right. reflexivity.
Defined.

Lemma guards_agree_witness :
  let m := mkMachine emptySession emptyWorld in
  isAuthenticationRoute (path dashboard) = false /\
  (forall k, faultAt (world m) k = false) /\
  fst (AuthMiddleware_beforeEach demo_validateJWT dashboard m) =
  fst (useNavigationGuard_beforeEach demo_validateJWT dashboard m).
Proof.
  intros m.
  assert (H : forall k, faultAt (world m) k = false) by (intro k; reflexivity).
  split; [reflexivity|]. split; [exact H|].
  exact (guards_agree demo_validateJWT dashboard m eq_refl H).
Defined.

Lemma withAuth_runs_only_when_allowed_witness :
  let m := mkMachine aliceSession emptyWorld in
  routeTypeOf "/dashboard" = PROTECTED /\
  valid_token_available demo_validateJWT (world m) = false /\
  withAuth demo_validateJWT "/dashboard" (endSession None) m =
    (Throw AccessDenied,
     snd (checkRouteAccess demo_validateJWT "/dashboard" m)) /\
  routeTypeOf "/" <> PROTECTED /\
  withAuth demo_validateJWT "/" (endSession None) m = endSession None m.
Proof.
  intros m.
  destruct (withAuth_runs_only_when_allowed demo_validateJWT "/dashboard"
              (endSession None) m) as (_ & B).
  destruct (B eq_refl eq_refl) as (_ & D).
  destruct (withAuth_runs_only_when_allowed demo_validateJWT "/"
              (endSession None) m) as (A & _).
  assert (N : routeTypeOf "/" <> PROTECTED) by discriminate.
  split; [reflexivity|]. split; [reflexivity|]. split; [exact (D eq_refl)|].
  split; [exact N|exact (A N)].
Defined.

Lemma generateNonce_hex_witness :
  List.length sampleBytes = 32%nat /\
  String.length (generateNonce sampleBytes) = 64%nat /\
  no_space (generateNonce sampleBytes) = true.
Proof.
  destruct (generateNonce_hex sampleBytes) as (_ & _ & N & L).
  split; [reflexivity|]. split; [exact (L eq_refl)|exact N].
Defined.

Lemma generateNonce_injective_witness :
  let a := [Byte.x0a; Byte.xf3] in
  let b := (List.repeat Byte.x0a 1 ++ List.repeat Byte.xf3 1)%list in
  generateNonce a = generateNonce b /\
  a = b /\
  parseHex "0af3" = Some a.
Proof.
  intros a b.
  destruct (generateNonce_injective a b) as [R I].
  assert (E : generateNonce a = generateNonce b) by reflexivity.
  split; [exact E|]. split; [exact (I E)|exact R].
Defined.

Lemma cspContent_tidy_witness :
  no_space "0af3" = true /\
  cspContent "0af3" false =
    "default-src 'self'; script-src 'self' 'nonce-0af3' 'strict-dynamic' https: 'unsafe-inline'; style-src 'self' 'unsafe-inline' https://fonts.googleapis.com; font-src 'self' https://fonts.gstatic.com; connect-src 'self' https://api.yourapi.com; object-src 'none'; base-uri 'self'; form-action 'self'; frame-ancestors 'none';".
Proof.
  destruct cspContent_tidy as [A _].
  split; [reflexivity|].
  exact (A "0af3" false eq_refl).
Defined.

Lemma applyCSP_scripts_witness :
  let r := applyCSP (generateNonce sampleBytes) true sampleDocument in
  truthy (generateNonce sampleBytes) = true /\
  Forall (fun n => truthy n = true) (scripts (snd r)) /\
  List.length (head (snd r)) = 1%nat.
Proof.
  intros r.
  destruct (applyCSP_scripts (generateNonce sampleBytes) true sampleDocument)
    as (_ & H & _ & F & _).
  split; [reflexivity|]. split; [exact (F eq_refl)|].
  fold r in H. rewrite H. reflexivity.
Defined.

Lemma startSession_fails_clean_witness :
  let m := mkMachine emptySession secondCallFails in
  faultAt (world m) (S (calls (world m))) = true /\
  fst (startSession demo_generateJWT alice "cred1" m) = Throw StoreError /\
  session (snd (startSession demo_generateJWT alice "cred1" m)) = session m /\
  tokenStore (world (snd (startSession demo_generateJWT alice "cred1" m))) =
    tokenStore (world m).
Proof.
  intros m.
  destruct (startSession_fails_clean demo_generateJWT alice "cred1" m
              (or_intror eq_refl)) as (_ & S & T & _).
  split; [reflexivity|]. split; [reflexivity|]. split; [exact S|exact T].
Defined.

Lemma endSession_log_failure_keeps_session_witness :
  let m := mkMachine aliceSession firstCallFails in
  isAuthenticated (session m) = true /\
  faultAt (world m) (calls (world m)) = true /\
  fst (endSession None m) = Throw StoreError /\
  session (snd (endSession None m)) = aliceSession.
Proof.
  intros m.
  pose proof (endSession_log_failure_keeps_session None m eq_refl eq_refl)
    as E.
  split; [reflexivity|]. split; [reflexivity|].
  rewrite E. split; reflexivity.
Defined.

Lemma resumed_session_ends_as_unknown_witness :
  let m := mkMachine emptySession tokenWorld in
  let m1 := snd (initSession demo_validateJWT m) in
  sessionUser (session m) = None /\
  valid_token_available demo_validateJWT (world m) = true /\
  (forall k, faultAt (world m) k = false) /\
  fst (endSession None m1) = Ok tt /\
  count_kind SESSION_END (eventLog (world (snd (endSession None m1)))) =
    1%nat.
Proof.
  intros m m1.
  assert (H : forall k, faultAt (world m) k = false) by (intro k; reflexivity).
  destruct (resumed_session_ends_as_unknown demo_validateJWT None m
              "eyJhbGciOi.alice" 1900000 eq_refl eq_refl eq_refl H)
    as [R L].
  split; [reflexivity|]. split; [reflexivity|]. split; [exact H|].
  split; [exact R|]. fold m1 in L. rewrite L. reflexivity.
Defined.

Lemma overlapping_calls_keep_one_deadline_witness :
  let m := machine (play demo_generateJWT demo_validateJWT overlappingMoves
                         (freshPage emptyWorld)) in
  timers emptyWorld = [] /\
  one_deadline m /\
  isAuthenticated (session m) = false.
Proof.
  intros m.
  split; [reflexivity|].
  split; [|reflexivity].
  apply (overlapping_calls_keep_one_deadline
           demo_generateJWT demo_validateJWT overlappingMoves emptyWorld).
  reflexivity.
Defined.

Lemma resetInactivityTimer_moves_deadline_witness :
  let m := mkMachine aliceSession aliceWorld in
  isAuthenticated (session m) = true /\
  one_deadline m /\
  0 <= sessionTimeout (session m) <= 2147483 /\
  timers (world (snd (resetInactivityTimer m))) = [(2%positive, 1900000)] /\
  resetInactivityTimer (mkMachine emptySession emptyWorld) =
    (Ok tt, mkMachine emptySession emptyWorld).
Proof.
  intros m.
  assert (H : one_deadline m).
  { right. exists 1%positive, 1300000. split; reflexivity. }
  assert (B : 0 <= sessionTimeout (session m) <= 2147483) by (simpl; lia).
  destruct (resetInactivityTimer_moves_deadline m) as [_ P].
  destruct (P eq_refl H B) as (_ & _ & T & _).
  destruct (resetInactivityTimer_moves_deadline
              (mkMachine emptySession emptyWorld)) as [A _].
  split; [reflexivity|]. split; [exact H|]. split; [exact B|].
  split; [exact T|]. exact (A eq_refl).
Defined.

Lemma updateSessionTimeout_restarts_witness :
  let m := mkMachine aliceSession aliceWorld in
  one_deadline m /\
  0 <= 60 <= 2147483 /\
  sessionTimeout (session (snd (updateSessionTimeout 60 m))) = 60 /\
  timers (world (snd (updateSessionTimeout 60 m))) = [(2%positive, 1060000)].
Proof.
  intros m.
  assert (H : one_deadline m).
  { right. exists 1%positive, 1300000. split; reflexivity. }
  assert (B : 0 <= 60 <= 2147483) by lia.
  destruct (updateSessionTimeout_restarts 60 m H B) as (_ & S & T & _).
  split; [exact H|]. split; [exact B|]. split; [exact S|exact T].
Defined.

Lemma overlapping_calls_keep_session_invariants_witness :
  let m := machine (play demo_generateJWT demo_validateJWT overlappingMoves
                         (freshPage emptyWorld)) in
  isAuthenticated (session m) = false /\
  session_invariant (session m) /\
  session_start_invariant (session m) /\
  sessionInfo m =
    (Ok (mkSessionInfo false None None 0 "0s" (sessionTimeout (session m))),
     m).
Proof.
  intros m.
  destruct (overlapping_calls_keep_session_invariants
              demo_generateJWT demo_validateJWT overlappingMoves emptyWorld)
    as (A & B & C).
  split; [reflexivity|]. split; [exact A|]. split; [exact B|].
  exact (C eq_refl).
Defined.
